(** * ScriptedAI (sc_creature.cpp): a shallow embedding and its properties

    The file embeds [ScriptedAI::SelectSpell], [ScriptedAI::CanCast],
    [FillSpellSummary], [ScriptedAI::DoResetThreat] and
    [ScriptedAI::EnterEvadeIfOutOfCombatArea] of
    src/game/AI/ScriptDevAI/include/sc_creature.cpp.

    Conventions.
    - [uint32] and [uint8] values are integers of [Z]; where the source
      computes on them the wrap-around is written out ([wrap32], [wrap8]).
    - [float] values are rationals of [Q]; a literal such as [304.12f] is
      read as the decimal it spells.  Only comparisons are made on them.
    - A pointer that may be null is an [option].
    - An array member of fixed size that is read below its size only
      ([m_spells], [Effect], ...) is a function of the index; an array
      that is allocated or written ([SpellSummary], [spellInfos]) is a
      list, and an access outside it is undefined.
    - A member function is a computation of [Script]: it takes the world
      (the AI object, its creature, and the calls made to collaborators so
      far) and gives a result and the next world, or [None] where the C++
      reads outside an array. *)

From Stdlib Require Import ZArith QArith Lia String.
From stdpp Require Import base option list.

Open Scope Z_scope.

(** ** Machine integers and floats *)

Definition wrap32 (z : Z) : Z := z mod 2 ^ 32.
Definition wrap8 (z : Z) : Z := z mod 2 ^ 8.
Definition is_uint32 (z : Z) : Prop := 0 <= z < 2 ^ 32.

Abbreviation float := Q.

(** [a < b] on floats. *)
Definition fltb (a b : Q) : bool := negb (Qle_bool b a).
(** A float used as a condition: true when it is not zero. *)
Definition fnonzero (a : Q) : bool := negb (Qeq_bool a 0).


(** ** SharedDefines: the enumerators sc_creature.cpp names *)

(** The implicit target of an effect ([enum Targets] of the engine).  The enumerators the
    file compares with are listed; every other value is [TARGET_other]. *)
Inductive SpellTarget :=
| TARGET_SELF
| TARGET_CHAIN_DAMAGE
| TARGET_ALL_ENEMY_IN_AREA
| TARGET_ALL_ENEMY_IN_AREA_INSTANT
| TARGET_ALL_PARTY_AROUND_CASTER
| TARGET_SINGLE_FRIEND
| TARGET_CASTER_COORDINATES
| TARGET_ALL_ENEMY_IN_AREA_CHANNELED
| TARGET_SINGLE_PARTY
| TARGET_AREAEFFECT_PARTY
| TARGET_CURRENT_ENEMY_COORDINATES
| TARGET_other (id : Z).

(** [enum SpellEffects], likewise. *)
Inductive SpellEffects :=
| SPELL_EFFECT_INSTAKILL
| SPELL_EFFECT_SCHOOL_DAMAGE
| SPELL_EFFECT_APPLY_AURA
| SPELL_EFFECT_ENVIRONMENTAL_DAMAGE
| SPELL_EFFECT_HEALTH_LEECH
| SPELL_EFFECT_HEAL
| SPELL_EFFECT_HEAL_MAX_HEALTH
| SPELL_EFFECT_HEAL_MECHANICAL
| SPELL_EFFECT_other (id : Z).

#[export] Instance SpellTarget_eq_dec : EqDecision SpellTarget.
Proof. solve_decision. Defined.
#[export] Instance SpellEffects_eq_dec : EqDecision SpellEffects.
Proof. solve_decision. Defined.

(** Target classes a caller of [SelectSpell] may ask for. *)
Inductive SelectTarget :=
| SELECT_TARGET_DONTCARE
| SELECT_TARGET_SELF
| SELECT_TARGET_SINGLE_ENEMY
| SELECT_TARGET_AOE_ENEMY
| SELECT_TARGET_ANY_ENEMY
| SELECT_TARGET_SINGLE_FRIEND
| SELECT_TARGET_AOE_FRIEND
| SELECT_TARGET_ANY_FRIEND.

(** Modelled from the spec: the numbering of [enum SelectTarget], which
    sc_creature.h declares.  Zero is "no filter"; the classes follow in the
    order self, single-enemy, aoe-enemy, any-enemy, single-friend,
    aoe-friend, any-friend. *)
Definition SelectTarget_value (t : SelectTarget) : Z :=
  match t with
  | SELECT_TARGET_DONTCARE => 0
  | SELECT_TARGET_SELF => 1
  | SELECT_TARGET_SINGLE_ENEMY => 2
  | SELECT_TARGET_AOE_ENEMY => 3
  | SELECT_TARGET_ANY_ENEMY => 4
  | SELECT_TARGET_SINGLE_FRIEND => 5
  | SELECT_TARGET_AOE_FRIEND => 6
  | SELECT_TARGET_ANY_FRIEND => 7
  end.

(** Effect classes a caller of [SelectSpell] may ask for. *)
Inductive SelectEffect :=
| SELECT_EFFECT_DONTCARE
| SELECT_EFFECT_DAMAGE
| SELECT_EFFECT_HEALING
| SELECT_EFFECT_AURA.

(** Modelled from the spec: the numbering of [enum SelectEffect], which
    sc_creature.h declares.  Zero is "no filter"; then damage, healing,
    applies-persistent-effect. *)
Definition SelectEffect_value (e : SelectEffect) : Z :=
  match e with
  | SELECT_EFFECT_DONTCARE => 0
  | SELECT_EFFECT_DAMAGE => 1
  | SELECT_EFFECT_HEALING => 2
  | SELECT_EFFECT_AURA => 3
  end.

(** ** The static databases *)

(** The fields of [SpellEntry] that are read.  The three per-effect arrays
    have [MAX_EFFECT_INDEX = 3] cells and are read at [j < 3] only: each is
    a function of the index. *)
Record SpellEntry := {
  SchoolMask : Z;
  Mechanic : Z;
  manaCost : Z;
  powerType : Z;
  rangeIndex : Z;
  Effect : nat -> SpellEffects;
  EffectImplicitTargetA : nat -> SpellTarget;
  EffectApplyAuraName : nat -> Z;
}.

Record SpellRangeEntry := {
  minRange : float;
  maxRange : float;
}.

(** Modelled from the spec: a store of the static database, which the
    engine declares.  It answers a lookup by id and a max-id query; ids
    run over [[0, maxEntry)] and an id may be absent. *)
Definition DBCStorage (A : Type) : Type := list (option A).

Definition GetMaxEntry {A} (store : DBCStorage A) : Z :=
  Z.of_nat (length store).

Definition LookupEntry {A} (store : DBCStorage A) (id : Z) : option A :=
  if 0 <=? id then mjoin (store !! Z.to_nat id) else None.

(** ** The capability index *)

Record TSpellSummary := {
  Targets : Z;   (* uint8 Targets: set of enum SelectTarget *)
  Effects : Z;    (* uint8 Effects: set of enum SelectEffect *)
}.

Definition zero_summary : TSpellSummary := {| Targets := 0; Effects := 0 |}.

(** [flags |= 1 << k] on a [uint8]. *)
Definition or_bit (flags k : Z) : Z := wrap8 (Z.lor flags (Z.shiftl 1 k)).

(** [flags & (1 << k)] taken as a condition. *)
Definition has_bit (flags k : Z) : bool :=
  negb (Z.land flags (Z.shiftl 1 k) =? 0).

Definition or_Targets (t : SelectTarget) (s : TSpellSummary) : TSpellSummary :=
  {| Targets := or_bit (Targets s) (SelectTarget_value t - 1);
     Effects := Effects s |}.

Definition or_Effects (e : SelectEffect) (s : TSpellSummary) : TSpellSummary :=
  {| Targets := Targets s;
     Effects := or_bit (Effects s) (SelectEffect_value e - 1) |}.

(** Whether the summary [s] puts the spell in target class [t], and in
    effect class [e]. *)
Definition in_target_class (s : TSpellSummary) (t : SelectTarget) : bool :=
  has_bit (Targets s) (SelectTarget_value t - 1).

Definition in_effect_class (s : TSpellSummary) (e : SelectEffect) : bool :=
  has_bit (Effects s) (SelectEffect_value e - 1).

(** [if (cond) stmt;] on a value that [stmt] updates. *)
Definition when {S} (cond : bool) (stmt : S -> S) (s : S) : S :=
  if cond then stmt s else s.

(** The body of the inner loop of [FillSpellSummary] (lines 244-306): what
    effect slot [j] of [tempSpell] adds to [SpellSummary[i]]. *)
Definition summary_slot (tempSpell : SpellEntry) (s : TSpellSummary) (j : nat)
  : TSpellSummary :=
  let target := EffectImplicitTargetA tempSpell j in
  let effect := Effect tempSpell j in
  let targets (t : SpellTarget) : bool := bool_decide (target = t) in
  let does (e : SpellEffects) : bool := bool_decide (effect = e) in
  (* Spell targets self *)
  let s := when (targets TARGET_SELF) (or_Targets SELECT_TARGET_SELF) s in
  (* Spell targets a single enemy *)
  let s := when (targets TARGET_CHAIN_DAMAGE
                 || targets TARGET_CURRENT_ENEMY_COORDINATES)
             (or_Targets SELECT_TARGET_SINGLE_ENEMY) s in
  (* Spell targets AoE at enemy *)
  let s := when (targets TARGET_ALL_ENEMY_IN_AREA
                 || targets TARGET_ALL_ENEMY_IN_AREA_INSTANT
                 || targets TARGET_CASTER_COORDINATES
                 || targets TARGET_ALL_ENEMY_IN_AREA_CHANNELED)
             (or_Targets SELECT_TARGET_AOE_ENEMY) s in
  (* Spell targets an enemy *)
  let s := when (targets TARGET_CHAIN_DAMAGE
                 || targets TARGET_CURRENT_ENEMY_COORDINATES
                 || targets TARGET_ALL_ENEMY_IN_AREA
                 || targets TARGET_ALL_ENEMY_IN_AREA_INSTANT
                 || targets TARGET_CASTER_COORDINATES
                 || targets TARGET_ALL_ENEMY_IN_AREA_CHANNELED)
             (or_Targets SELECT_TARGET_ANY_ENEMY) s in
  (* Spell targets a single friend (or self) *)
  let s := when (targets TARGET_SELF
                 || targets TARGET_SINGLE_FRIEND
                 || targets TARGET_SINGLE_PARTY)
             (or_Targets SELECT_TARGET_SINGLE_FRIEND) s in
  (* Spell targets aoe friends *)
  let s := when (targets TARGET_ALL_PARTY_AROUND_CASTER
                 || targets TARGET_AREAEFFECT_PARTY
                 || targets TARGET_CASTER_COORDINATES)
             (or_Targets SELECT_TARGET_AOE_FRIEND) s in
  (* Spell targets any friend (or self) *)
  let s := when (targets TARGET_SELF
                 || targets TARGET_SINGLE_FRIEND
                 || targets TARGET_SINGLE_PARTY
                 || targets TARGET_ALL_PARTY_AROUND_CASTER
                 || targets TARGET_AREAEFFECT_PARTY
                 || targets TARGET_CASTER_COORDINATES)
             (or_Targets SELECT_TARGET_ANY_FRIEND) s in
  (* Make sure that this spell includes a damage effect *)
  let s := when (does SPELL_EFFECT_SCHOOL_DAMAGE
                 || does SPELL_EFFECT_INSTAKILL
                 || does SPELL_EFFECT_ENVIRONMENTAL_DAMAGE
                 || does SPELL_EFFECT_HEALTH_LEECH)
             (or_Effects SELECT_EFFECT_DAMAGE) s in
  (* ... a healing effect (or an apply aura with a periodic heal) *)
  let s := when (does SPELL_EFFECT_HEAL
                 || does SPELL_EFFECT_HEAL_MAX_HEALTH
                 || does SPELL_EFFECT_HEAL_MECHANICAL
                 || (does SPELL_EFFECT_APPLY_AURA
                     && (EffectApplyAuraName tempSpell j =? 8)))
             (or_Effects SELECT_EFFECT_HEALING) s in
  (* Make sure that this spell applies an aura *)
  let s := when (does SPELL_EFFECT_APPLY_AURA)
             (or_Effects SELECT_EFFECT_AURA) s in
  s.

(** One turn of the outer loop (lines 234-307): the value [SpellSummary[i]]
    is left with.  Both fields are zeroed first; an id that does not
    resolve stops there ([continue]). *)
Definition summary_entry (tempSpell : option SpellEntry) : TSpellSummary :=
  match tempSpell with
  | None => zero_summary
  | Some sp => foldl (summary_slot sp) zero_summary [0; 1; 2]%nat
  end.

(** [FillSpellSummary] (lines 226-309) as a function of the store.
    [new TSpellSummary[GetMaxEntry()]] gives an array whose cells hold
    indeterminate values, here [uninit]; turn [i] of the loop assigns
    cell [i]. *)
Definition fill_summary (uninit : TSpellSummary)
    (store : DBCStorage SpellEntry) : list TSpellSummary :=
  foldl (fun arr i => <[i := summary_entry (LookupEntry store (Z.of_nat i))]> arr)
        (replicate (Z.to_nat (GetMaxEntry store)) uninit)
        (seq 0 (Z.to_nat (GetMaxEntry store))).

(** ** The entity model, as far as sc_creature.cpp reads it *)

Record Unit := { GetObjectGuid : Z }.

(** One entry of the threat list. *)
Record HostileReference := {
  getUnitGuid : Z;
  refThreat : float;
}.

(** [m_spells] is a fixed array read at [i < 4] only: a function of the
    index.  [HasFlag_SILENCED] is
    [HasFlag(UNIT_FIELD_FLAGS, UNIT_FLAG_SILENCED)]. *)
Record Creature := {
  GetEntry : Z;
  GetPositionX : float;
  GetPositionY : float;
  GetPositionZ : float;
  GetRespawnCoord : float * float * float;
  IsInEvadeMode : bool;
  getVictim : option Unit;
  HasFlag_SILENCED : bool;
  GetPower : Z -> Z;
  m_spells : nat -> Z;
  CanHaveThreatList : bool;
  getThreatList : list HostileReference;
}.

Record ScriptedAI := {
  m_creature : Creature;
  m_uiEvadeCheckCooldown : Z;
}.

(** The constructor: [m_uiEvadeCheckCooldown(2500)]. *)
Definition ScriptedAI_new (creature : Creature) : ScriptedAI :=
  {| m_creature := creature; m_uiEvadeCheckCooldown := 2500 |}.

(** Calls that leave sc_creature.cpp.  [CombatAreaSwitch] is a marker and
    not a call: it records that control reached the [switch] on the
    creature entry, that is, that the geometric test was evaluated. *)
Inductive Call :=
| script_error_log (fmt : string) (arg : Z)
| CreatureAI_EnterEvadeMode
| AI_Reset
| CombatAreaSwitch (entry : Z).

(** The AI object, the globals of the file and of the engine that it
    reads, and the calls made so far. *)
Record World := {
  ai : ScriptedAI;
  SpellSummary : list TSpellSummary;
  SpellStore : DBCStorage SpellEntry;
  SpellRangeStore : DBCStorage SpellRangeEntry;
  calls : list Call;
}.

(** ** Computations *)

Definition Script (A : Type) : Type := World -> option (A * World).

#[export] Instance Script_ret : MRet Script :=
  fun A a w => Some (a, w).
#[export] Instance Script_bind : MBind Script :=
  fun A B k m w =>
    match m w with
    | Some (a, w') => k a w'
    | None => None
    end.

Definition creature : Script Creature :=
  fun w => Some (m_creature (ai w), w).

Definition read {A} (field : World -> A) : Script A :=
  fun w => Some (field w, w).

Definition with_ai (a : ScriptedAI) (w : World) : World :=
  {| ai := a; SpellSummary := SpellSummary w; SpellStore := SpellStore w;
     SpellRangeStore := SpellRangeStore w; calls := calls w |}.

Definition with_calls (es : list Call) (w : World) : World :=
  {| ai := ai w; SpellSummary := SpellSummary w; SpellStore := SpellStore w;
     SpellRangeStore := SpellRangeStore w; calls := es |}.

Definition with_SpellSummary (arr : list TSpellSummary) (w : World) : World :=
  {| ai := ai w; SpellSummary := arr; SpellStore := SpellStore w;
     SpellRangeStore := SpellRangeStore w; calls := calls w |}.

Definition with_cooldown (v : Z) (w : World) : World :=
  with_ai {| m_creature := m_creature (ai w); m_uiEvadeCheckCooldown := v |} w.

Definition with_creature (c : Creature) (w : World) : World :=
  with_ai {| m_creature := c;
             m_uiEvadeCheckCooldown := m_uiEvadeCheckCooldown (ai w) |} w.

Definition emit (e : Call) : Script () :=
  fun w => Some (tt, with_calls (calls w ++ [e]) w).

Definition set_m_uiEvadeCheckCooldown (v : Z) : Script () :=
  fun w => Some (tt, with_cooldown v w).

(** [!p] on a pointer. *)
Definition is_null {A} (p : option A) : bool :=
  match p with None => true | Some _ => false end.

(** An array read or write outside its bounds. *)
Definition undefined {A} : Script A := fun _ => None.

(** [arr[i]] as an rvalue. *)
Definition array_read {A} (arr : list A) (i : Z) : Script A :=
  if 0 <=? i then
    match arr !! Z.to_nat i with
    | Some x => mret x
    | None => undefined
    end
  else undefined.

(** [arr[i] = x]. *)
Definition array_write {A} (arr : list A) (i : Z) (x : A) : Script (list A) :=
  if (0 <=? i) && (i <? Z.of_nat (length arr)) then
    mret (<[Z.to_nat i := x]> arr)
  else undefined.

(** [for (x in xs) s = body(x, s)]. *)
Fixpoint for_each {A S} (xs : list A) (body : A -> S -> Script S) (s : S)
  : Script S :=
  match xs with
  | [] => mret s
  | x :: xs' => s' ← body x s; for_each xs' body s'
  end.

Definition is_log (e : Call) : bool :=
  match e with script_error_log _ _ => true | _ => false end.
Definition is_evade (e : Call) : bool :=
  match e with CreatureAI_EnterEvadeMode => true | _ => false end.
Definition is_reset (e : Call) : bool :=
  match e with AI_Reset => true | _ => false end.
Definition is_switch (e : Call) : bool :=
  match e with CombatAreaSwitch _ => true | _ => false end.

(** How many of the calls [es] satisfy [p]. *)
Definition count (p : Call -> bool) (es : list Call) : nat :=
  length (List.filter p es).

(** [FillSpellSummary] (lines 226-309): the global [SpellSummary] is set to
    the array built from the spell store. *)
Definition FillSpellSummary (uninit : TSpellSummary) : Script () :=
  fun w => Some (tt, with_SpellSummary (fill_summary uninit (SpellStore w)) w).

(** ** ScriptedAI::EnterEvadeMode (lines 66-70) *)

Definition EnterEvadeMode : Script () :=
  emit CreatureAI_EnterEvadeMode ;;
  emit AI_Reset.

(** ** The threat manager *)

Definition with_threatList (l : list HostileReference) (c : Creature)
  : Creature :=
  {| GetEntry := GetEntry c;
     GetPositionX := GetPositionX c;
     GetPositionY := GetPositionY c;
     GetPositionZ := GetPositionZ c;
     GetRespawnCoord := GetRespawnCoord c;
     IsInEvadeMode := IsInEvadeMode c;
     getVictim := getVictim c;
     HasFlag_SILENCED := HasFlag_SILENCED c;
     GetPower := GetPower c;
     m_spells := m_spells c;
     CanHaveThreatList := CanHaveThreatList c;
     getThreatList := l |}.

Definition refers_to (unit : Unit) (ref : HostileReference) : bool :=
  getUnitGuid ref =? GetObjectGuid unit.

(** Modelled from the spec: the lookup behind [getThreat].  The threat a
    list records for a unit; zero when the unit has no entry. *)
Definition find_threat (l : list HostileReference) (unit : Unit) : float :=
  match List.find (refers_to unit) l with
  | Some ref => refThreat ref
  | None => 0%Q
  end.

(** Modelled from the spec: [ThreatManager::getThreat(unit)], defined in
    the engine.  The threat the creature's list records for the unit. *)
Definition getThreat (c : Creature) (unit : Unit) : float :=
  find_threat (getThreatList c) unit.

(** Modelled from the spec: the threat of an entry changed by [pct]
    percent of itself; by -100 it is reduced by 100%. *)
Definition addThreatPercent (pct : Z) (ref : HostileReference)
  : HostileReference :=
  {| getUnitGuid := getUnitGuid ref;
     refThreat := Qred (refThreat ref + refThreat ref * (pct # 100)) |}.

(** Modelled from the spec: [f] applied to the entry of [unit], which
    stays where it is in the list. *)
Fixpoint update_reference (unit : Unit) (f : HostileReference -> HostileReference)
    (l : list HostileReference) : list HostileReference :=
  match l with
  | [] => []
  | ref :: l' =>
      if refers_to unit ref then f ref :: l'
      else ref :: update_reference unit f l'
  end.

(** The world with the creature's threat list replaced. *)
Definition with_threat (l : list HostileReference) (w : World) : World :=
  with_creature (with_threatList l (m_creature (ai w))) w.

(** Modelled from the spec: [ThreatManager::modifyThreatPercent(unit, pct)],
    defined in the engine.  The threat of the unit's entry is changed by
    [pct] percent (by -100: reduced by 100%, zeroed); the entry stays in
    the list. *)
Definition modifyThreatPercent (unit : Unit) (pct : Z) : Script () :=
  fun w =>
    let c := m_creature (ai w) in
    Some (tt, with_threat
                (update_reference unit (addThreatPercent pct) (getThreatList c)) w).

(** ** The evade regions (lines 399-412) *)

Definition NPC_BROODLORD : Z := 12017.
Definition NPC_VOID_REAVER : Z := 19516.
Definition NPC_JAN_ALAI : Z := 23578.
Definition NPC_TALON_KING_IKISS : Z := 18473.
Definition NPC_KARGATH_BLADEFIST : Z := 16808.
Definition NPC_NETHERMANCER_SEPETHREA : Z := 19221.
Definition NPC_MOROES : Z := 15687.
Definition NPC_MOROGRIM_TIDEWALKER : Z := 21213.
Definition NPC_ANUBARAK : Z := 29120.
Definition NPC_SINDRAGOSA : Z := 36853.
Definition NPC_ZARITHRIAN : Z := 39746.

(** The entries that have a [case] label in the switch. *)
Definition evade_entries : list Z :=
  [NPC_BROODLORD; NPC_VOID_REAVER; NPC_JAN_ALAI; NPC_TALON_KING_IKISS;
   NPC_KARGATH_BLADEFIST; NPC_NETHERMANCER_SEPETHREA; NPC_MOROES;
   NPC_MOROGRIM_TIDEWALKER; NPC_ANUBARAK; NPC_SINDRAGOSA; NPC_ZARITHRIAN].

(** The three ways control leaves the switch. *)
Inductive SwitchExit :=
| ReturnFalse   (* [return false] inside a case *)
| Break         (* [break]: control goes on to [EnterEvadeMode()] *)
| Default.      (* the [default] label *)

(** The body under [case NPC_ANUBARAK], which control also reaches from
    [case NPC_MOROGRIM_TIDEWALKER], there being no [break] between the
    two. *)
Definition case_NPC_ANUBARAK (y : float) : SwitchExit :=
  if fltb y 281.0 && fltb 228.0 y then ReturnFalse else Break.

Definition msg_no_definition : string :=
  "EnterEvadeIfOutOfCombatArea used for creature entry %u, but does not have any definition.".

Definition msg_no_threat_list : string :=
  "DoResetThreat called for creature that either cannot have threat list or has empty threat list (m_creature entry = %d)".

(** The arguments of [SelectSpell] after the target. *)
Record SelectArgs := {
  school : Z;                   (* int32 *)
  mechanic : Z;                 (* int32 *)
  selectTargets : SelectTarget;
  powerCostMin : Z;             (* uint32 *)
  powerCostMax : Z;             (* uint32 *)
  rangeMin : float;
  rangeMax : float;
  selectEffects : SelectEffect;
}.

(** ** A small world to run the functions in *)

Module Example.

(** A damage spell on one enemy, cost 50 of power 0, range entry 1. *)
Definition fireball : SpellEntry :=
  {| SchoolMask := 4; Mechanic := 0; manaCost := 50; powerType := 0;
     rangeIndex := 1;
     Effect := fun j => match j with
                        | O => SPELL_EFFECT_SCHOOL_DAMAGE
                        | _ => SPELL_EFFECT_other 0
                        end;
     EffectImplicitTargetA := fun j => match j with
                                       | O => TARGET_CHAIN_DAMAGE
                                       | _ => TARGET_other 0
                                       end;
     EffectApplyAuraName := fun _ => 0 |}.

(** A periodic heal on one friend, cost 30 of power 0, range entry 1. *)
Definition renew : SpellEntry :=
  {| SchoolMask := 2; Mechanic := 0; manaCost := 30; powerType := 0;
     rangeIndex := 1;
     Effect := fun j => match j with
                        | O => SPELL_EFFECT_APPLY_AURA
                        | _ => SPELL_EFFECT_other 0
                        end;
     EffectImplicitTargetA := fun j => match j with
                                       | O => TARGET_SINGLE_FRIEND
                                       | _ => TARGET_other 0
                                       end;
     EffectApplyAuraName := fun j => match j with O => 8 | _ => 0 end |}.

(** Ids 1 and 2 resolve; ids 0 and 3 are absent; [GetMaxEntry] is 4. *)
Definition spells : DBCStorage SpellEntry :=
  [None; Some fireball; Some renew; None].

Definition ranges : DBCStorage SpellRangeEntry :=
  [None; Some {| minRange := 0; maxRange := 30 |}].

Definition player : Unit := {| GetObjectGuid := 1 |}.

(** A creature of entry [entry] at [(x, y, 0)], in combat with [player],
    with [power] of every power type and spells 1 and 2. *)
Definition npc (entry : Z) (x y : float) (power : Z) : Creature :=
  {| GetEntry := entry;
     GetPositionX := x; GetPositionY := y; GetPositionZ := 0;
     GetRespawnCoord := (x, y, 0%Q);
     IsInEvadeMode := false;
     getVictim := Some player;
     HasFlag_SILENCED := false;
     GetPower := fun _ => power;
     m_spells := fun i => nth i [1; 2; 0; 0] 0;
     CanHaveThreatList := true;
     getThreatList :=
       [ {| getUnitGuid := 1; refThreat := 100 |};
         {| getUnitGuid := 2; refThreat := 0 |};
         {| getUnitGuid := 77; refThreat := 50 |} ] |}.

Definition evading (c : Creature) : Creature :=
  {| GetEntry := GetEntry c;
     GetPositionX := GetPositionX c; GetPositionY := GetPositionY c;
     GetPositionZ := GetPositionZ c;
     GetRespawnCoord := GetRespawnCoord c;
     IsInEvadeMode := true;
     getVictim := getVictim c;
     HasFlag_SILENCED := HasFlag_SILENCED c;
     GetPower := GetPower c;
     m_spells := m_spells c;
     CanHaveThreatList := CanHaveThreatList c;
     getThreatList := getThreatList c |}.

(** The world of a newly made AI for [c], after [FillSpellSummary]. *)
Definition world (c : Creature) : World :=
  {| ai := ScriptedAI_new c;
     SpellSummary := fill_summary zero_summary spells;
     SpellStore := spells;
     SpellRangeStore := ranges;
     calls := [] |}.

(** Morogrim Tidewalker east of his room, level with the middle of
    Anub'arak's band of [y]. *)
Definition morogrim : Creature := npc NPC_MOROGRIM_TIDEWALKER 500 250 40.

(** An entry the switch has no case for. *)
Definition boar : Creature := npc 3100 0 0 40.

(** Every unit stands 10 away from the creature. *)
Definition distance : float := 10.

Definition GetDistance2d (c : Creature) (x y : float) : float := distance.

Definition IsInRange (c : Creature) (target : Unit) (minRange maxRange : float)
  : bool :=
  negb (fltb distance minRange) && fltb distance maxRange.

Definition IsWithinDistInMap (c : Creature) (target : Unit) (dist : float)
  : bool :=
  fltb distance dist.

(** The units of guid 1 to 9 are on the map. *)
Definition GetUnit (guid : Z) : option Unit :=
  if (1 <=? guid) && (guid <=? 9) then Some {| GetObjectGuid := guid |}
  else None.

(** A random source that always draws the upper bound. *)
Definition urand (lo hi : Z) : Z := hi.

Definition no_filter : SelectArgs :=
  {| school := -1; mechanic := -1; selectTargets := SELECT_TARGET_DONTCARE;
     powerCostMin := 0; powerCostMax := 0; rangeMin := 0; rangeMax := 0;
     selectEffects := SELECT_EFFECT_DONTCARE |}.

Definition healing_only : SelectArgs :=
  {| school := -1; mechanic := -1; selectTargets := SELECT_TARGET_DONTCARE;
     powerCostMin := 0; powerCostMax := 0; rangeMin := 0; rangeMax := 0;
     selectEffects := SELECT_EFFECT_HEALING |}.

End Example.

(** ** The helpers that only call the engine *)

(** These functions read their arguments and the creature, keep no state
    of the AI, and call the engine: each is the list of the calls it
    makes, in order.  Of a diagnostic the format is kept, not the values
    printed into it. *)

Inductive VirtualItemSlot :=
| VIRTUAL_ITEM_SLOT_0
| VIRTUAL_ITEM_SLOT_1
| VIRTUAL_ITEM_SLOT_2.

Inductive EngineCall :=
| Aggro (enemy : Unit)
| MoveChase (victim : Unit) (dist angle : float) (moveFurther : bool)
| MoveIdle
| StopMoving
| AttackStop
| AddThreat (who : Unit)
| SetInCombatWith (who : Unit)          (* m_creature->SetInCombatWith(who) *)
| SetInCombatWith_creature (who : Unit) (* who->SetInCombatWith(m_creature) *)
| PlayDirectSound (soundId : Z)
| TeleportTo (unit : Unit) (mapId : Z) (x y z ori : float)
| LoadEquipment (templateId : Z)
| SetVirtualItem (slot : VirtualItemSlot) (item : Z)
| engine_error_log (fmt : string).

(** [ScriptedAI::EnterCombat] (lines 35-39). *)
Definition EnterCombat (enemy : option Unit) : list EngineCall :=
  match enemy with
  | Some enemy => [Aggro enemy]
  | None => []
  end.

(** [ScriptedAI::DoStartMovement] (lines 78-82); the distance, the angle
    and the flag are members of the AI. *)
Definition DoStartMovement (m_attackDistance m_attackAngle : float)
    (m_moveFurther : bool) (victim : option Unit) : list EngineCall :=
  match victim with
  | Some victim => [MoveChase victim m_attackDistance m_attackAngle m_moveFurther]
  | None => []
  end.

(** [ScriptedAI::DoStartNoMovement] (lines 84-91). *)
Definition DoStartNoMovement (victim : option Unit) : list EngineCall :=
  match victim with
  | None => []
  | Some _ => [MoveIdle; StopMoving]
  end.

(** [ScriptedAI::DoStopAttack] (lines 93-97). *)
Definition DoStopAttack (c : Creature) : list EngineCall :=
  if negb (is_null (getVictim c)) then [AttackStop] else [].

Definition msg_invalid_sound : string :=
  "Invalid soundId %u used in DoPlaySoundToSet (Source: TypeId %u, GUID %u)".

(** [ScriptedAI::DoPlaySoundToSet] (lines 99-111).  [source] is null or
    not; [sounds] is the store [GetSoundEntriesStore()] gives. *)
Definition DoPlaySoundToSet {Sound Source} (sounds : DBCStorage Sound)
    (source : option Source) (soundId : Z) : list EngineCall :=
  match source with
  | None => []
  | Some _ =>
      if is_null (LookupEntry sounds soundId) then
        [engine_error_log msg_invalid_sound]
      else [PlayDirectSound soundId]
  end.

Definition msg_teleport_non_player : string :=
  "%s tried to teleport non-player (%s) to x: %f y:%f z: %f o: %f. Aborted.".

(** [ScriptedAI::DoTeleportPlayer] (lines 329-341).  [GetTypeId] and
    [GetMapId] are the unit's, [TYPEID_PLAYER] the engine's constant; the
    option passed to [TeleportTo] is always TELE_TO_NOT_LEAVE_COMBAT. *)
Definition DoTeleportPlayer (TYPEID_PLAYER : Z) (GetTypeId GetMapId : Unit -> Z)
    (unit : option Unit) (x y z ori : float) : list EngineCall :=
  match unit with
  | None => []
  | Some unit =>
      if negb (GetTypeId unit =? TYPEID_PLAYER) then
        [engine_error_log msg_teleport_non_player]
      else [TeleportTo unit (GetMapId unit) x y z ori]
  end.

(** [ScriptedAI::SetEquipmentSlots] (lines 379-395).
    [EquipmentTemplateId] is that of the creature's template. *)
Definition SetEquipmentSlots (EquipmentTemplateId : Z) (loadDefault : bool)
    (mainHand offHand ranged : Z) : list EngineCall :=
  if loadDefault then [LoadEquipment EquipmentTemplateId]
  else
    (if 0 <=? mainHand then [SetVirtualItem VIRTUAL_ITEM_SLOT_0 mainHand] else [])
    ++ (if 0 <=? offHand then [SetVirtualItem VIRTUAL_ITEM_SLOT_1 offHand] else [])
    ++ (if 0 <=? ranged then [SetVirtualItem VIRTUAL_ITEM_SLOT_2 ranged] else []).

(** [Scripted_NoMovementAI::AttackStart] (lines 493-503).  [Attack] is
    the answer of [m_creature->Attack(who, true)]. *)
Definition NoMovementAI_AttackStart (Attack : Unit -> bool) (who : option Unit)
  : list EngineCall :=
  match who with
  | Some target =>
      if Attack target then
        [AddThreat target; SetInCombatWith target; SetInCombatWith_creature target]
        ++ DoStartNoMovement who
      else []
  | None => []
  end.

Definition is_MoveChase (e : EngineCall) : bool :=
  match e with MoveChase _ _ _ _ => true | _ => false end.

(** ** More of the example world *)

Module Example2.

(** Nethermancer Sepethrea at [(x, 0, 0)]. *)
Definition sepethrea (x : float) : Creature :=
  Example.npc NPC_NETHERMANCER_SEPETHREA x 0 40.

(** A caster with 100 of every power: both spells of the example are
    affordable. *)
Definition caster : Creature := Example.npc 1 0 0 100.

(** Three updates of a second each. *)
Definition three_seconds : list (Creature * Z) :=
  [(Example.morogrim, 1000); (Example.morogrim, 1000); (Example.morogrim, 1000)].

(** No spell of school 4, and none that costs more than 40. *)
Definition cheap_not_fire : SelectArgs :=
  {| school := 4; mechanic := -1; selectTargets := SELECT_TARGET_DONTCARE;
     powerCostMin := 0; powerCostMax := 40; rangeMin := 0; rangeMax := 0;
     selectEffects := SELECT_EFFECT_DONTCARE |}.

(** A random source that always draws the lower bound. *)
Definition urand_low (lo hi : Z) : Z := lo.

(** The threat list of the example after a reset. *)
Definition threat_after_reset : list HostileReference :=
  [ {| getUnitGuid := 1; refThreat := 0 |};
    {| getUnitGuid := 2; refThreat := 0 |};
    {| getUnitGuid := 77; refThreat := 50 |} ].

End Example2.

Section ScriptedAI.

(** Functions of the engine that sc_creature.cpp calls on [m_creature]
    (first argument) and that are defined elsewhere. *)
Variable GetDistance2d : Creature -> float -> float -> float.
Variable IsInRange : Creature -> Unit -> float -> float -> bool.
Variable IsWithinDistInMap : Creature -> Unit -> float -> bool.
(** [m_creature->GetMap()->GetUnit(guid)] *)
Variable GetUnit : Z -> option Unit.
(** [urand(min, max)], the random source. *)
Variable urand : Z -> Z -> Z.

#[local] Set Default Proof Using "Type".

(** *** ScriptedAI::EnterEvadeIfOutOfCombatArea (lines 414-486) *)

(** The switch on [m_creature->GetEntry()] (lines 427-482). *)
Definition combat_area_switch (c : Creature) : SwitchExit :=
  let x := GetPositionX c in
  let y := GetPositionY c in
  let z := GetPositionZ c in
  let entry := GetEntry c in
  if entry =? NPC_BROODLORD then
    if fltb 448.60 z then ReturnFalse else Break
  else if entry =? NPC_VOID_REAVER then
    if fltb (GetDistance2d c 432.59 371.93) 105.0 then ReturnFalse else Break
  else if entry =? NPC_JAN_ALAI then
    if fltb 12.0 z then ReturnFalse else Break
  else if entry =? NPC_TALON_KING_IKISS then
    let '(x, y, z) := GetRespawnCoord c in
    if fltb (GetDistance2d c x y) 70.0 then ReturnFalse else Break
  else if entry =? NPC_KARGATH_BLADEFIST then
    if fltb x 255.0 && fltb 205.0 x then ReturnFalse else Break
  else if entry =? NPC_NETHERMANCER_SEPETHREA then
    if fltb 266.0 x then ReturnFalse else Break
  else if entry =? NPC_MOROES then
    if fltb (-11027.73) x && fltb x (-10946.64)
       && fltb (-1952.38) y && fltb y (-1861.11)
    then ReturnFalse else Break
  else if entry =? NPC_MOROGRIM_TIDEWALKER then
    if fltb 304.12 x && fltb x 457.35 then ReturnFalse
    else case_NPC_ANUBARAK y
  else if entry =? NPC_ANUBARAK then
    case_NPC_ANUBARAK y
  else if entry =? NPC_SINDRAGOSA then
    if fltb 4314.0 x then ReturnFalse else Break
  else if entry =? NPC_ZARITHRIAN then
    if fltb 87.0 z then ReturnFalse else Break
  else Default.

Definition EnterEvadeIfOutOfCombatArea (diff : Z) : Script bool :=
  cooldown ← read (fun w => m_uiEvadeCheckCooldown (ai w));
  if cooldown <? diff then
    set_m_uiEvadeCheckCooldown 2500 ;;
    c ← creature;
    if IsInEvadeMode c || is_null (getVictim c) then
      mret false
    else
      emit (CombatAreaSwitch (GetEntry c)) ;;
      match combat_area_switch c with
      | ReturnFalse => mret false
      | Default =>
          emit (script_error_log msg_no_definition (GetEntry c)) ;;
          mret false
      | Break =>
          EnterEvadeMode ;;
          mret true
      end
  else
    set_m_uiEvadeCheckCooldown (wrap32 (cooldown - diff)) ;;
    mret false.

(** *** ScriptedAI::CanCast (lines 199-224) *)

Definition CanCast (target : option Unit) (spellInfo : option SpellEntry)
    (triggered : bool) : Script bool :=
  match target, spellInfo with
  | Some target, Some spellInfo =>
      c ← creature;
      (* Silenced so we can't cast *)
      if negb triggered && HasFlag_SILENCED c then mret false
      (* Check for power *)
      else if negb triggered
              && (GetPower c (powerType spellInfo) <? manaCost spellInfo)
      then mret false
      else
        ranges ← read SpellRangeStore;
        match LookupEntry ranges (rangeIndex spellInfo) with
        | None => mret false
        | Some tempRange =>
            (* Unit is out of range of this spell *)
            if negb (IsInRange c target (minRange tempRange) (maxRange tempRange))
            then mret false
            else mret true
        end
  | _, _ => mret false
  end.

(** *** ScriptedAI::DoResetThreat (lines 311-327) *)

Definition isThreatListEmpty (c : Creature) : bool :=
  match getThreatList c with [] => true | _ => false end.

(** The loop runs over the entries of the live list.  No entry is added,
    removed or moved by the body, so the guids it meets are those of the
    list at entry; the threat is read from the live list each turn. *)
Definition DoResetThreat : Script () :=
  c ← creature;
  if negb (CanHaveThreatList c) || isThreatListEmpty c then
    emit (script_error_log msg_no_threat_list (GetEntry c))
  else
    for_each (getThreatList c) (fun itr _ =>
      match GetUnit (getUnitGuid itr) with
      | Some unit =>
          c ← creature;
          if fnonzero (getThreat c unit) then modifyThreatPercent unit (-100)
          else mret tt
      | None => mret tt
      end) tt.

(** *** ScriptedAI::SelectSpell (lines 113-197) *)

(** The locals the loop updates: [spellInfos] and [spellCount]. *)
Definition Viable : Type := list (option SpellEntry) * Z.

(** Lines 158-185: the checks of the loop body that read no array. *)
Definition unusable (args : SelectArgs) (c : Creature) (target : Unit)
    (ranges : DBCStorage SpellRangeEntry) (tempSpellInfo : SpellEntry) : bool :=
  (* Check for school if specified *)
  if (0 <=? school args)
     && negb (Z.land (SchoolMask tempSpellInfo) (school args) =? 0)
  then true
  (* Check for spell mechanic if specified *)
  else if (0 <=? mechanic args)
          && negb (Mechanic tempSpellInfo =? wrap32 (mechanic args))
  then true
  (* Make sure that the spell uses the requested amount of power *)
  else if negb (powerCostMin args =? 0)
          && (manaCost tempSpellInfo <? powerCostMin args)
  then true
  else if negb (powerCostMax args =? 0)
          && (powerCostMax args <? manaCost tempSpellInfo)
  then true
  (* Continue if we don't have the mana to actually cast this spell *)
  else if GetPower c (powerType tempSpellInfo) <? manaCost tempSpellInfo
  then true
  else
    match LookupEntry ranges (rangeIndex tempSpellInfo) with
    (* Spell has invalid range store so we can't use it *)
    | None => true
    | Some tempRange =>
        (* Check if the spell meets our range requirements *)
        if fnonzero (rangeMin args) && fltb (maxRange tempRange) (rangeMin args)
        then true
        else if fnonzero (rangeMax args)
                && fltb (rangeMax args) (maxRange tempRange)
        then true
        (* Check if our target is in range *)
        else IsWithinDistInMap c target (minRange tempRange)
             || negb (IsWithinDistInMap c target (maxRange tempRange))
    end.

(** [selectTargets && !(SpellSummary[id].Targets & (1 << (selectTargets - 1)))].
    The array is read only when a class is asked for. *)
Definition fails_selectTargets (args : SelectArgs) (id : Z) : Script bool :=
  if negb (SelectTarget_value (selectTargets args) =? 0) then
    arr ← read SpellSummary;
    summary ← array_read arr id;
    mret (negb (has_bit (Targets summary)
                  (SelectTarget_value (selectTargets args) - 1)))
  else mret false.

(** [selectEffects && !(SpellSummary[id].Effects & (1 << (selectEffects - 1)))] *)
Definition fails_selectEffects (args : SelectArgs) (id : Z) : Script bool :=
  if negb (SelectEffect_value (selectEffects args) =? 0) then
    arr ← read SpellSummary;
    summary ← array_read arr id;
    mret (negb (has_bit (Effects summary)
                  (SelectEffect_value (selectEffects args) - 1)))
  else mret false.

(** The body of the loop (lines 135-189) at index [i]. *)
Definition SelectSpell_body (target : Unit) (args : SelectArgs)
    (i : nat) (viable : Viable) : Script Viable :=
  let '(spellInfos, spellCount) := viable in
  c ← creature;
  spells ← read SpellStore;
  match LookupEntry spells (m_spells c i) with
  (* This spell doesn't exist *)
  | None => mret viable
  | Some tempSpellInfo =>
      skip ← fails_selectTargets args (m_spells c i);
      if skip : bool then mret viable else
      skip ← fails_selectEffects args (m_spells c i);
      if skip : bool then mret viable else
      ranges ← read SpellRangeStore;
      if unusable args c target ranges tempSpellInfo then mret viable else
      (* All good so lets add it to the spell list *)
      spellInfos ← array_write spellInfos spellCount (Some tempSpellInfo);
      mret (spellInfos, wrap32 (spellCount + 1))
  end.

Definition SelectSpell (target : option Unit) (args : SelectArgs)
  : Script (option SpellEntry) :=
  match target with
  (* No target so we can't cast *)
  | None => mret None
  | Some target =>
      c ← creature;
      (* Silenced so we can't cast *)
      if HasFlag_SILENCED c then mret None else
      '(spellInfos, spellCount) ←
        for_each [0; 1; 2; 3]%nat (SelectSpell_body target args)
                 (replicate 4 None, 0);
      (* We got our usable spells so now lets randomly pick one *)
      if spellCount =? 0 then mret None
      else array_read spellInfos (urand 0 (wrap32 (spellCount - 1)))
  end.


(** *** The effect of [DoResetThreat] on the threat list, stated apart *)

(** What becomes of an entry: its threat is reduced by 100% when its unit
    resolves and its threat is not zero; else it is left as it is. *)
Definition reset_reference (ref : HostileReference) : HostileReference :=
  match GetUnit (getUnitGuid ref) with
  | Some _ =>
      if fnonzero (refThreat ref) then addThreatPercent (-100) ref else ref
  | None => ref
  end.

(** One turn of the loop, on the list alone. *)
Definition reset_step (l : list HostileReference) (guid : Z)
  : list HostileReference :=
  match GetUnit guid with
  | Some unit =>
      if fnonzero (find_threat l unit)
      then update_reference unit (addThreatPercent (-100)) l
      else l
  | None => l
  end.

(** [GetUnit] gives the unit of the guid asked for. *)
Definition GetUnit_by_guid : Prop :=
  forall guid unit, GetUnit guid = Some unit -> GetObjectGuid unit = guid.

(** *** The candidates of [SelectSpell], stated apart from the arrays *)

(** The contract of [urand]: a value between its bounds. *)
Definition urand_in_range : Prop :=
  forall lo hi, lo <= hi -> lo <= urand lo hi <= hi.

(** [SpellSummary] has a cell for every id of the spell store, as it has
    once [FillSpellSummary] has run. *)
Definition summary_covers_store (w : World) : Prop :=
  (length (SpellStore w) <= length (SpellSummary w))%nat.

(** A target class is asked for and the summary of [id] lacks it. *)
Definition lacks_target_class (w : World) (args : SelectArgs) (id : Z) : bool :=
  negb (SelectTarget_value (selectTargets args) =? 0)
  && match SpellSummary w !! Z.to_nat id with
     | Some summary => negb (in_target_class summary (selectTargets args))
     | None => true
     end.

(** An effect class is asked for and the summary of [id] lacks it. *)
Definition lacks_effect_class (w : World) (args : SelectArgs) (id : Z) : bool :=
  negb (SelectEffect_value (selectEffects args) =? 0)
  && match SpellSummary w !! Z.to_nat id with
     | Some summary => negb (in_effect_class summary (selectEffects args))
     | None => true
     end.

(** The spell of slot [i] when it passes every check of the loop body. *)
Definition survivor (target : Unit) (args : SelectArgs) (w : World) (i : nat)
  : option SpellEntry :=
  let c := m_creature (ai w) in
  match LookupEntry (SpellStore w) (m_spells c i) with
  | None => None
  | Some tempSpellInfo =>
      if lacks_target_class w args (m_spells c i) then None
      else if lacks_effect_class w args (m_spells c i) then None
      else if unusable args c target (SpellRangeStore w) tempSpellInfo then None
      else Some tempSpellInfo
  end.

(** The spells that pass every check of [SelectSpell], in scan order: none
    without a target or under silence, else the survivors of the four
    slots. *)
Definition candidates (target : option Unit) (args : SelectArgs) (w : World)
  : list SpellEntry :=
  match target with
  | None => []
  | Some target =>
      if HasFlag_SILENCED (m_creature (ai w)) then []
      else omap (survivor target args w) [0; 1; 2; 3]%nat
  end.

(** [spellInfos] when the spells of [acc] have been stored in it. *)
Definition stored (acc : list SpellEntry) : list (option SpellEntry) :=
  (Some <$> acc) ++ replicate (4 - length acc) None.

(** *** The evade check over the updates of an encounter *)

(** Between two updates the engine may leave the creature in any state. *)
Definition engine_sets (c : Creature) : Script () :=
  fun w => Some (tt, with_creature c w).

(** The check called once per update, as the scripts that use it do from
    their [UpdateAI(diff)]: each update comes with the state the engine
    left the creature in and with its [diff]. *)
Fixpoint evade_checks (updates : list (Creature * Z)) : Script (list bool) :=
  match updates with
  | [] => mret []
  | (c, diff) :: rest =>
      engine_sets c ;;
      b ← EnterEvadeIfOutOfCombatArea diff;
      bs ← evade_checks rest;
      mret (b :: bs)
  end.

(** The time the updates span. *)
Definition elapsed (updates : list (Creature * Z)) : Z :=
  foldr (fun u t => snd u + t) 0 updates.

(** How many times the switch was reached in the calls [es]. *)
Definition tests (es : list Call) : Z := Z.of_nat (count is_switch es).

(** *** Arguments of [SelectSpell] without the class filters *)


(** Whether the caster can pay for the spell, if there is one. *)
Definition affordable (c : Creature) (spellInfo : option SpellEntry) : bool :=
  match spellInfo with
  | Some sp => negb (GetPower c (powerType sp) <? manaCost sp)
  | None => true
  end.

(** The two reads of [SpellSummary] in the loop body go well in [w]: for
    an id that resolves they return, with the answer [lacks_target_class]
    and [lacks_effect_class] give. *)
Definition summary_reads_defined (args : SelectArgs) (w : World) : Prop :=
  forall id sp,
    LookupEntry (SpellStore w) id = Some sp ->
    fails_selectTargets args id w = Some (lacks_target_class w args id, w)
    /\ fails_selectEffects args id w = Some (lacks_effect_class w args id, w).

(** *** What an effect slot has to be for each effect class *)

(** Slot [j] of [sp] is a damage effect (lines 291-294). *)
Definition damages (sp : SpellEntry) (j : nat) : Prop :=
  Effect sp j = SPELL_EFFECT_SCHOOL_DAMAGE
  \/ Effect sp j = SPELL_EFFECT_INSTAKILL
  \/ Effect sp j = SPELL_EFFECT_ENVIRONMENTAL_DAMAGE
  \/ Effect sp j = SPELL_EFFECT_HEALTH_LEECH.

(** Slot [j] of [sp] is a healing effect, or applies the aura of name 8
    (lines 298-301). *)
Definition heals (sp : SpellEntry) (j : nat) : Prop :=
  Effect sp j = SPELL_EFFECT_HEAL
  \/ Effect sp j = SPELL_EFFECT_HEAL_MAX_HEALTH
  \/ Effect sp j = SPELL_EFFECT_HEAL_MECHANICAL
  \/ (Effect sp j = SPELL_EFFECT_APPLY_AURA /\ EffectApplyAuraName sp j = 8).

(** Slot [j] of [sp] applies an aura (line 305). *)
Definition applies_aura (sp : SpellEntry) (j : nat) : Prop :=
  Effect sp j = SPELL_EFFECT_APPLY_AURA.

(** Both fields of a summary use the bits of their classes only: seven
    target classes, three effect classes. *)
Definition flags_bounded (s : TSpellSummary) : Prop :=
  0 <= Targets s < 2 ^ 7 /\ 0 <= Effects s < 2 ^ 3.

(** ** Properties *)

(** *** Floats and machine integers *)

Lemma fltb_lt a b : fltb a b = true <-> (a < b)%Q.
Proof.
  unfold fltb. rewrite negb_true_iff. split.
  - intros H. apply Qnot_le_lt. intros Hle.
    apply Qle_bool_iff in Hle. congruence.
  - intros H. destruct (Qle_bool b a) eqn:E; [|reflexivity].
    apply Qle_bool_iff in E. exfalso. exact (Qlt_not_le _ _ H E).
Qed.

Lemma fltb_ge a b : fltb a b = false <-> (b <= a)%Q.
Proof.
  unfold fltb. rewrite negb_false_iff. apply Qle_bool_iff.
Qed.

Lemma wrap32_small z : is_uint32 z -> wrap32 z = z.
Proof. intros H. apply Z.mod_small. exact H. Qed.

(** *** Running a computation *)

Lemma bind_run {A B} (m : Script A) (k : A -> Script B) w :
  (m ≫= k) w = match m w with Some (a, w') => k a w' | None => None end.
Proof. reflexivity. Qed.

Lemma ret_run {A} (a : A) w : (mret a : Script A) w = Some (a, w).
Proof. reflexivity. Qed.

(** Unfold the primitives of [Script] at the head of the goal. *)
Ltac run :=
  cbv beta iota delta
    [mbind mret Script_bind Script_ret read creature emit undefined
     set_m_uiEvadeCheckCooldown EnterEvadeMode].

Lemma with_cooldown_calls v w : calls (with_cooldown v w) = calls w.
Proof. reflexivity. Qed.

Lemma with_cooldown_creature v w :
  m_creature (ai (with_cooldown v w)) = m_creature (ai w).
Proof. reflexivity. Qed.

Lemma count_app p es es' : count p (es ++ es') = (count p es + count p es')%nat.
Proof. unfold count. rewrite List.filter_app, length_app. reflexivity. Qed.

(** *** The evade check *)

(** The part of [EnterEvadeIfOutOfCombatArea] after the cooldown has been
    reset: the guard on evade mode and victim, then the switch. *)
Lemma evade_elapsed diff w :
  m_uiEvadeCheckCooldown (ai w) < diff ->
  EnterEvadeIfOutOfCombatArea diff w =
    let c := m_creature (ai w) in
    let w1 := with_cooldown 2500 w in
    if IsInEvadeMode c || is_null (getVictim c)
    then Some (false, w1)
    else
      let w2 := with_calls (calls w ++ [CombatAreaSwitch (GetEntry c)]) w1 in
      match combat_area_switch c with
      | ReturnFalse => Some (false, w2)
      | Default =>
          Some (false,
                with_calls (calls w2 ++ [script_error_log msg_no_definition (GetEntry c)]) w2)
      | Break =>
          Some (true,
                with_calls ((calls w2 ++ [CreatureAI_EnterEvadeMode]) ++ [AI_Reset]) w2)
      end.
Proof.
  intros H. apply Z.ltb_lt in H.
  unfold EnterEvadeIfOutOfCombatArea. run. rewrite H. run.
  destruct (IsInEvadeMode _ || _); [reflexivity|]. run.
  destruct (combat_area_switch _); reflexivity.
Qed.

Lemma evade_waiting diff w :
  diff <= m_uiEvadeCheckCooldown (ai w) ->
  EnterEvadeIfOutOfCombatArea diff w =
    Some (false, with_cooldown (wrap32 (m_uiEvadeCheckCooldown (ai w) - diff)) w).
Proof.
  intros H. apply Z.ltb_ge in H.
  unfold EnterEvadeIfOutOfCombatArea. run. rewrite H. reflexivity.
Qed.

Lemma switch_default c :
  ~ In (GetEntry c) evade_entries -> combat_area_switch c = Default.
Proof.
  clear IsInRange IsWithinDistInMap GetUnit urand.
  intros Hnot. unfold combat_area_switch.
  repeat match goal with
  | |- context [GetEntry c =? ?n] =>
      destruct (Z.eqb_spec (GetEntry c) n) as [E|_];
      [exfalso; apply Hnot; rewrite E; unfold evade_entries; simpl; tauto|]
  end.
  reflexivity.
Qed.

Lemma switch_morogrim c :
  GetEntry c = NPC_MOROGRIM_TIDEWALKER ->
  combat_area_switch c =
    if fltb 304.12 (GetPositionX c) && fltb (GetPositionX c) 457.35
    then ReturnFalse
    else case_NPC_ANUBARAK (GetPositionY c).
Proof.
  intros E. unfold combat_area_switch. rewrite E. reflexivity.
Qed.

(** C2, as amended.  With [delta <= cooldown] the check is skipped: the
    call returns false, the cooldown decreases by exactly [delta] and
    nothing else changes.  With [delta > cooldown] the cooldown is reset to
    2500 and the geometric test is evaluated once when the actor is not
    evading and has a victim, and not at all otherwise. *)
Theorem evade_cooldown_gate (w : World) (diff : Z) :
  is_uint32 diff ->
  is_uint32 (m_uiEvadeCheckCooldown (ai w)) ->
  let cooldown := m_uiEvadeCheckCooldown (ai w) in
  let c := m_creature (ai w) in
  (diff <= cooldown ->
     EnterEvadeIfOutOfCombatArea diff w
       = Some (false, with_cooldown (cooldown - diff) w))
  /\ (cooldown < diff ->
      exists b w',
        EnterEvadeIfOutOfCombatArea diff w = Some (b, w')
        /\ m_uiEvadeCheckCooldown (ai w') = 2500
        /\ count is_switch (calls w') =
             (count is_switch (calls w)
              + (if IsInEvadeMode c || is_null (getVictim c) then 0 else 1))%nat).
Proof.
  intros Hd Hc cooldown c. split.
  - intros Hle. rewrite evade_waiting by exact Hle.
    rewrite wrap32_small; [reflexivity|].
    unfold is_uint32 in *. fold cooldown in Hc. fold cooldown. lia.
  - intros Hlt. rewrite evade_elapsed by exact Hlt. cbv zeta. fold c.
    destruct (IsInEvadeMode c || is_null (getVictim c)).
    + eexists _, _. split; [reflexivity|]. split; [reflexivity|].
      rewrite with_cooldown_calls. lia.
    + destruct (combat_area_switch c); eexists _, _;
        (split; [reflexivity|]); (split; [reflexivity|]);
        cbn [calls with_calls]; rewrite ?count_app; cbn; lia.
Qed.

(** C10.  When the elapsed delta exceeds the remaining cooldown and the
    actor is in evade mode or has no victim, the call returns false and
    the only change is the cooldown, which is 2500: the geometric test is
    not evaluated and no call is made.  A following call with a delta of
    at most 2500 is skipped in turn. *)
Theorem evade_reset_before_guard (w : World) (diff : Z) :
  let c := m_creature (ai w) in
  m_uiEvadeCheckCooldown (ai w) < diff ->
  IsInEvadeMode c = true \/ getVictim c = None ->
  EnterEvadeIfOutOfCombatArea diff w = Some (false, with_cooldown 2500 w)
  /\ count is_switch (calls (with_cooldown 2500 w)) = count is_switch (calls w)
  /\ forall diff', is_uint32 diff' -> diff' <= 2500 ->
       EnterEvadeIfOutOfCombatArea diff' (with_cooldown 2500 w)
         = Some (false, with_cooldown (2500 - diff') w).
Proof.
  intros c Hlt Hguard. split; [|split].
  - rewrite evade_elapsed by exact Hlt. cbv zeta. fold c.
    destruct Hguard as [-> | ->]; [reflexivity|].
    rewrite orb_true_r. reflexivity.
  - reflexivity.
  - intros diff' Hd Hle. rewrite evade_waiting by exact Hle.
    cbn [m_uiEvadeCheckCooldown ai with_cooldown with_ai].
    rewrite wrap32_small; [reflexivity|]. unfold is_uint32 in *. lia.
Qed.

(** C8.  For an actor whose entry has no case in the switch, in combat
    with a victim, not evading, with the cooldown elapsed: the call
    returns false; one diagnostic line is logged; [EnterEvadeMode] is not
    called; the state changes in the cooldown only. *)
Theorem evade_no_definition (w : World) (diff : Z) :
  let c := m_creature (ai w) in
  m_uiEvadeCheckCooldown (ai w) < diff ->
  IsInEvadeMode c = false ->
  is_Some (getVictim c) ->
  ~ In (GetEntry c) evade_entries ->
  let w' := with_calls
              (calls w ++ [CombatAreaSwitch (GetEntry c);
                           script_error_log msg_no_definition (GetEntry c)])
              (with_cooldown 2500 w) in
  EnterEvadeIfOutOfCombatArea diff w = Some (false, w')
  /\ count is_log (calls w') = S (count is_log (calls w))
  /\ count is_evade (calls w') = count is_evade (calls w)
  /\ count is_reset (calls w') = count is_reset (calls w)
  /\ m_creature (ai w') = m_creature (ai w).
Proof.
  intros c Hlt Hev [v Hv] Hnot w'. split.
  - rewrite evade_elapsed by exact Hlt. cbv zeta. fold c.
    rewrite Hev, Hv, (switch_default c Hnot). cbn [orb is_null].
    unfold w'. cbn [calls with_calls]. rewrite <- app_assoc. reflexivity.
  - unfold w'. cbn [calls with_calls]. rewrite !count_app.
    cbn. repeat split; lia.
Qed.

(** C3.  What the check does for Morogrim Tidewalker, in combat with a
    victim, not evading, the cooldown elapsed.  With [x] inside the band
    (304.12, 457.35) it returns false and makes no call.  With [x] outside
    the band control runs into the case of Anub'arak: when
    [228 < y < 281] the check returns false and [EnterEvadeMode] is not
    called; only for the other [y] is [EnterEvadeMode] called and true
    returned. *)
Theorem evade_morogrim (w : World) (diff : Z) :
  let c := m_creature (ai w) in
  let x := GetPositionX c in
  let y := GetPositionY c in
  GetEntry c = NPC_MOROGRIM_TIDEWALKER ->
  m_uiEvadeCheckCooldown (ai w) < diff ->
  IsInEvadeMode c = false ->
  is_Some (getVictim c) ->
  let tested := with_calls (calls w ++ [CombatAreaSwitch (GetEntry c)])
                  (with_cooldown 2500 w) in
  let evaded := with_calls (calls tested ++ [CreatureAI_EnterEvadeMode; AI_Reset])
                  tested in
  ((304.12 < x /\ x < 457.35)%Q ->
     EnterEvadeIfOutOfCombatArea diff w = Some (false, tested))
  /\ (~ (304.12 < x /\ x < 457.35)%Q -> (228.0 < y /\ y < 281.0)%Q ->
     EnterEvadeIfOutOfCombatArea diff w = Some (false, tested))
  /\ (~ (304.12 < x /\ x < 457.35)%Q -> ~ (228.0 < y /\ y < 281.0)%Q ->
     EnterEvadeIfOutOfCombatArea diff w = Some (true, evaded)).
Proof.
  clear IsInRange IsWithinDistInMap GetUnit urand.
  intros c x y He Hlt Hev [v Hv] tested evaded.
  assert (Hrun : EnterEvadeIfOutOfCombatArea diff w =
            if fltb 304.12 x && fltb x 457.35 then Some (false, tested)
            else if fltb y 281.0 && fltb 228.0 y then Some (false, tested)
            else Some (true, evaded)).
  { rewrite evade_elapsed by exact Hlt. cbv zeta. fold c.
    rewrite Hev, Hv, (switch_morogrim c He). cbn [orb is_null].
    fold x y. unfold case_NPC_ANUBARAK.
    destruct (fltb 304.12 x && fltb x 457.35); [reflexivity|].
    destruct (fltb y 281.0 && fltb 228.0 y); [reflexivity|].
    unfold evaded. cbn [calls with_calls]. rewrite <- app_assoc. reflexivity. }
  rewrite Hrun. clear Hrun.
  assert (HX : fltb 304.12 x && fltb x 457.35 = true
               <-> (304.12 < x /\ x < 457.35)%Q)
    by (rewrite andb_true_iff, !fltb_lt; tauto).
  assert (HY : fltb y 281.0 && fltb 228.0 y = true
               <-> (228.0 < y /\ y < 281.0)%Q)
    by (rewrite andb_true_iff, !fltb_lt; tauto).
  destruct (fltb 304.12 x && fltb x 457.35);
    destruct (fltb y 281.0 && fltb 228.0 y);
    intuition congruence.
Qed.

(** *** CanCast *)

(** C1.  [CanCast] leaves the world as it is and returns false exactly
    when the target is null, or the spell is null, or the cast is not
    triggered and the caster is silenced, or the cast is not triggered and
    the caster's power of the spell's power type is below its cost, or the
    spell has no range entry, or [IsInRange] says the target is not within
    the minimum and maximum range.  With a cost of 50 and a power of 40 a
    cast that is not triggered gets false, and a triggered one gets true
    when the range entry exists and the target is in range. *)
Theorem CanCast_spec (w : World) (target : option Unit)
    (spellInfo : option SpellEntry) (triggered : bool) :
  let c := m_creature (ai w) in
  let ranges := SpellRangeStore w in
  (exists b,
     CanCast target spellInfo triggered w = Some (b, w)
     /\ (b = false <->
         target = None
         \/ spellInfo = None
         \/ (triggered = false /\ HasFlag_SILENCED c = true)
         \/ (triggered = false /\ exists sp, spellInfo = Some sp
               /\ GetPower c (powerType sp) < manaCost sp)
         \/ (exists sp, spellInfo = Some sp
               /\ LookupEntry ranges (rangeIndex sp) = None)
         \/ (exists t sp r, target = Some t /\ spellInfo = Some sp
               /\ LookupEntry ranges (rangeIndex sp) = Some r
               /\ IsInRange c t (minRange r) (maxRange r) = false)))
  /\ (forall t sp r,
        target = Some t -> spellInfo = Some sp ->
        manaCost sp = 50 -> GetPower c (powerType sp) = 40 ->
        LookupEntry ranges (rangeIndex sp) = Some r ->
        IsInRange c t (minRange r) (maxRange r) = true ->
        CanCast target spellInfo false w = Some (false, w)
        /\ CanCast target spellInfo true w = Some (true, w)).
Proof.
  intros c ranges. subst c ranges. split.
  - destruct target as [t|]; [|exists false; split; [reflexivity|tauto]].
    destruct spellInfo as [sp|]; [|exists false; split; [reflexivity|tauto]].
    unfold CanCast. run.
    destruct triggered; cbn [negb andb].
    + destruct (LookupEntry (SpellRangeStore w) (rangeIndex sp)) as [r|] eqn:Er.
      * destruct (IsInRange (m_creature (ai w)) t (minRange r) (maxRange r)) eqn:Ein;
          cbn [negb]; eexists; (split; [reflexivity|]).
        -- split; [discriminate|].
           intros [H|[H|[[H _]|[[H _]|[(sp' & H & H')|(t' & sp' & r' & Ht & Hs & Hr & Hi)]]]]];
             try discriminate.
           ++ injection H as <-. congruence.
           ++ injection Ht as <-. injection Hs as <-.
              rewrite Er in Hr. injection Hr as <-. congruence.
        -- split; [|reflexivity]. intros _.
           do 5 right. exists t, sp, r. auto.
      * eexists; split; [reflexivity|]. split; [|reflexivity]. intros _.
        do 4 right. left. exists sp. auto.
    + destruct (HasFlag_SILENCED (m_creature (ai w))) eqn:Es.
      { eexists; split; [reflexivity|]. split; [|reflexivity]. intros _.
        right. right. left. auto. }
      destruct (GetPower (m_creature (ai w)) (powerType sp) <? manaCost sp) eqn:Ep.
      { eexists; split; [reflexivity|]. split; [|reflexivity]. intros _.
        do 3 right. left. split; [reflexivity|]. exists sp.
        apply Z.ltb_lt in Ep. auto. }
      apply Z.ltb_ge in Ep.
      destruct (LookupEntry (SpellRangeStore w) (rangeIndex sp)) as [r|] eqn:Er.
      * destruct (IsInRange (m_creature (ai w)) t (minRange r) (maxRange r)) eqn:Ein;
          cbn [negb]; eexists; (split; [reflexivity|]).
        -- split; [discriminate|].
           intros [H|[H|[[_ H]|[[_ (sp' & H & H')]|[(sp' & H & H')|(t' & sp' & r' & Ht & Hs & Hr & Hi)]]]]];
             try discriminate.
           ++ injection H as <-. lia.
           ++ injection H as <-. congruence.
           ++ injection Ht as <-. injection Hs as <-.
              rewrite Er in Hr. injection Hr as <-. congruence.
        -- split; [|reflexivity]. intros _.
           do 5 right. exists t, sp, r. auto.
      * eexists; split; [reflexivity|]. split; [|reflexivity]. intros _.
        do 4 right. left. exists sp. auto.
  - intros t sp r -> -> Hcost Hpow Er Ein.
    unfold CanCast. run.
    rewrite Hcost, Hpow.
    destruct (HasFlag_SILENCED (m_creature (ai w)));
      cbn -[LookupEntry]; rewrite Er, Ein; split; reflexivity.
Qed.

(** *** Bits of a [uint8] *)

Lemma has_bit_testbit flags k : 0 <= k -> has_bit flags k = Z.testbit flags k.
Proof.
  intros Hk. unfold has_bit. rewrite Z.shiftl_1_l.
  destruct (Z.testbit flags k) eqn:E.
  - apply negb_true_iff, Z.eqb_neq. intros H0.
    assert (Hb : Z.testbit (Z.land flags (2 ^ k)) k = true).
    { rewrite Z.land_spec, E, Z.pow2_bits_true by exact Hk. reflexivity. }
    rewrite H0, Z.bits_0 in Hb. discriminate.
  - apply negb_false_iff, Z.eqb_eq. apply Z.bits_inj'. intros n Hn.
    rewrite Z.land_spec, Z.bits_0, Z.pow2_bits_eqb by exact Hk.
    destruct (Z.eqb_spec k n) as [<-|_].
    + rewrite E. reflexivity.
    + apply andb_false_r.
Qed.

Lemma has_bit_or_bit flags k n :
  0 <= k -> 0 <= n < 8 ->
  has_bit (or_bit flags k) n = has_bit flags n || (n =? k).
Proof.
  intros Hk Hn. rewrite !has_bit_testbit by lia.
  unfold or_bit, wrap8. rewrite Z.mod_pow2_bits_low by lia.
  rewrite Z.lor_spec, Z.shiftl_1_l, Z.pow2_bits_eqb by exact Hk.
  rewrite (Z.eqb_sym k n). reflexivity.
Qed.

Lemma has_bit_zero k : has_bit 0 k = false.
Proof. unfold has_bit. rewrite Z.land_0_l. reflexivity. Qed.

Lemma when_or_Targets cond t s u :
  1 <= SelectTarget_value t -> 1 <= SelectTarget_value u <= 8 ->
  in_target_class (when cond (or_Targets t) s) u
  = in_target_class s u
    || (cond && (SelectTarget_value u =? SelectTarget_value t)).
Proof.
  intros Ht Hu. unfold in_target_class, when.
  destruct cond; cbn [andb or_Targets Targets].
  - rewrite has_bit_or_bit by lia. f_equal.
    destruct (Z.eqb_spec (SelectTarget_value u - 1) (SelectTarget_value t - 1));
      destruct (Z.eqb_spec (SelectTarget_value u) (SelectTarget_value t));
      try reflexivity; lia.
  - rewrite orb_false_r. reflexivity.
Qed.

Lemma when_or_Effects cond e s u :
  1 <= SelectEffect_value e -> 1 <= SelectEffect_value u <= 8 ->
  in_effect_class (when cond (or_Effects e) s) u
  = in_effect_class s u
    || (cond && (SelectEffect_value u =? SelectEffect_value e)).
Proof.
  intros He Hu. unfold in_effect_class, when.
  destruct cond; cbn [andb or_Effects Effects].
  - rewrite has_bit_or_bit by lia. f_equal.
    destruct (Z.eqb_spec (SelectEffect_value u - 1) (SelectEffect_value e - 1));
      destruct (Z.eqb_spec (SelectEffect_value u) (SelectEffect_value e));
      try reflexivity; lia.
  - rewrite orb_false_r. reflexivity.
Qed.

Lemma when_or_Effects_Targets cond e s u :
  in_target_class (when cond (or_Effects e) s) u = in_target_class s u.
Proof. destruct cond; reflexivity. Qed.

Lemma when_or_Targets_Effects cond t s u :
  in_effect_class (when cond (or_Targets t) s) u = in_effect_class s u.
Proof. destruct cond; reflexivity. Qed.

Lemma SelectTarget_value_range t :
  t <> SELECT_TARGET_DONTCARE -> 1 <= SelectTarget_value t <= 8.
Proof. destruct t; cbn; intros; try lia; congruence. Qed.

Lemma SelectEffect_value_range e :
  e <> SELECT_EFFECT_DONTCARE -> 1 <= SelectEffect_value e <= 8.
Proof. destruct e; cbn; intros; try lia; congruence. Qed.

(** What one effect slot does to the class [u] of a summary. *)
Ltac slot_bits :=
  unfold summary_slot; cbv zeta;
  repeat first
    [ rewrite when_or_Effects_Targets
    | rewrite when_or_Targets_Effects
    | rewrite when_or_Targets by (cbn; lia)
    | rewrite when_or_Effects by (cbn; lia) ];
  cbn [SelectTarget_value SelectEffect_value Z.eqb Pos.eqb andb orb];
  rewrite ?andb_false_r, ?orb_false_r, ?andb_true_r.

Lemma slot_single_enemy_any_enemy sp s j :
  (in_target_class s SELECT_TARGET_SINGLE_ENEMY = true ->
   in_target_class s SELECT_TARGET_ANY_ENEMY = true) ->
  in_target_class (summary_slot sp s j) SELECT_TARGET_SINGLE_ENEMY = true ->
  in_target_class (summary_slot sp s j) SELECT_TARGET_ANY_ENEMY = true.
Proof.
  slot_bits.
  destruct (in_target_class s SELECT_TARGET_SINGLE_ENEMY),
           (in_target_class s SELECT_TARGET_ANY_ENEMY);
    destruct (EffectImplicitTargetA sp j); cbn; auto.
Qed.

Lemma slot_keeps_effect_class sp s j u :
  u <> SELECT_EFFECT_DONTCARE ->
  in_effect_class s u = true ->
  in_effect_class (summary_slot sp s j) u = true.
Proof.
  intros Hu H. pose proof (SelectEffect_value_range u Hu).
  unfold summary_slot; cbv zeta.
  repeat first
    [ rewrite when_or_Targets_Effects
    | rewrite when_or_Effects by (cbn; lia) ].
  rewrite H. reflexivity.
Qed.

Lemma slot_periodic_heal sp s j :
  Effect sp j = SPELL_EFFECT_APPLY_AURA ->
  EffectApplyAuraName sp j = 8 ->
  in_effect_class (summary_slot sp s j) SELECT_EFFECT_AURA = true
  /\ in_effect_class (summary_slot sp s j) SELECT_EFFECT_HEALING = true.
Proof.
  intros He Ha. slot_bits. rewrite He, Ha. cbn.
  rewrite !orb_true_r. split; reflexivity.
Qed.

(** *** The array built by [FillSpellSummary] *)

Lemma fill_cells {A} (f : nat -> A) (k a : nat) (arr : list A) (j : nat) :
  (a + k <= length arr)%nat ->
  foldl (fun arr i => <[i := f i]> arr) arr (seq a k) !! j
  = if decide (a <= j < a + k)%nat then Some (f j) else arr !! j.
Proof.
  revert a arr. induction k as [|k IH]; intros a arr Hlen; cbn [seq foldl].
  - case_decide; [lia|reflexivity].
  - rewrite IH by (rewrite length_insert; lia).
    repeat case_decide; try reflexivity; try lia.
    destruct (decide (j = a)) as [->|Hne].
    + apply list_lookup_insert_eq. lia.
    + exfalso. lia.
    + apply list_lookup_insert_ne. lia.
Qed.

Lemma fill_length {A} (f : nat -> A) (k a : nat) (arr : list A) :
  length (foldl (fun arr i => <[i := f i]> arr) arr (seq a k)) = length arr.
Proof.
  revert a arr. induction k as [|k IH]; intros a arr; cbn [seq foldl].
  - reflexivity.
  - rewrite IH. apply length_insert.
Qed.

Lemma fill_summary_length uninit store :
  length (fill_summary uninit store) = length store.
Proof.
  unfold fill_summary, GetMaxEntry.
  rewrite fill_length, length_replicate. apply Nat2Z.id.
Qed.

Lemma fill_summary_lookup uninit store (i : nat) :
  fill_summary uninit store !! i
  = if decide (i < length store)%nat
    then Some (summary_entry (LookupEntry store (Z.of_nat i)))
    else None.
Proof.
  unfold fill_summary, GetMaxEntry. rewrite Nat2Z.id.
  rewrite fill_cells by (rewrite length_replicate; lia).
  repeat case_decide; try reflexivity; try lia.
  apply lookup_replicate_None. lia.
Qed.

Lemma LookupEntry_Some {A} (store : DBCStorage A) id x :
  LookupEntry store id = Some x -> 0 <= id < GetMaxEntry store.
Proof.
  unfold LookupEntry, GetMaxEntry. destruct (Z.leb_spec 0 id); [|discriminate].
  intros Hx. destruct (store !! Z.to_nat id) eqn:E; [|discriminate].
  apply lookup_lt_Some in E. lia.
Qed.

Lemma LookupEntry_outside {A} (store : DBCStorage A) id :
  id < 0 \/ GetMaxEntry store <= id -> LookupEntry store id = None.
Proof.
  intros H. destruct (LookupEntry store id) eqn:E; [|reflexivity].
  apply LookupEntry_Some in E. lia.
Qed.

Lemma array_read_Some {A} (arr : list A) (i : Z) x w :
  0 <= i -> arr !! Z.to_nat i = Some x -> array_read arr i w = Some (x, w).
Proof.
  intros Hi E. unfold array_read.
  destruct (Z.leb_spec 0 i); [|lia]. rewrite E. reflexivity.
Qed.

Lemma array_read_outside {A} (arr : list A) (i : Z) w :
  i < 0 \/ Z.of_nat (length arr) <= i -> array_read arr i w = None.
Proof.
  intros H. unfold array_read. destruct (Z.leb_spec 0 i); [|reflexivity].
  rewrite (proj2 (lookup_ge_None arr (Z.to_nat i))) by lia. reflexivity.
Qed.

Lemma FillSpellSummary_run uninit w :
  FillSpellSummary uninit w
  = Some (tt, with_SpellSummary (fill_summary uninit (SpellStore w)) w).
Proof. reflexivity. Qed.

Lemma FillSpellSummary_covers uninit w w' :
  FillSpellSummary uninit w = Some (tt, w') -> summary_covers_store w'.
Proof.
  rewrite FillSpellSummary_run. intros [= <-]. unfold summary_covers_store.
  cbn [with_SpellSummary SpellSummary SpellStore].
  rewrite fill_summary_length. apply Nat.le_refl.
Qed.

(** C6, as amended.  [FillSpellSummary] returns, and the array it builds
    has one cell per id below [GetMaxEntry()].  For an id in that range
    that does not resolve in the store, the cell holds zero flags.  For an
    id outside the range the store has no entry and the array has no cell:
    reading it is undefined. *)
Theorem summary_of_absent_spell (uninit : TSpellSummary) (w : World) (id : Z) :
  let store := SpellStore w in
  exists w',
    FillSpellSummary uninit w = Some (tt, w')
    /\ Z.of_nat (length (SpellSummary w')) = GetMaxEntry store
    /\ (0 <= id < GetMaxEntry store -> LookupEntry store id = None ->
        array_read (SpellSummary w') id w' = Some (zero_summary, w'))
    /\ (id < 0 \/ GetMaxEntry store <= id ->
        LookupEntry store id = None
        /\ array_read (SpellSummary w') id w' = None).
Proof.
  intros store. subst store. eexists. split; [apply FillSpellSummary_run|].
  cbn [with_SpellSummary SpellSummary]. split; [|split].
  - rewrite fill_summary_length. reflexivity.
  - intros Hid Habs. apply array_read_Some; [lia|].
    rewrite fill_summary_lookup. unfold GetMaxEntry in Hid.
    case_decide; [|lia]. rewrite Z2Nat.id by lia. rewrite Habs. reflexivity.
  - intros Hid. split; [apply LookupEntry_outside; exact Hid|].
    apply array_read_outside. rewrite fill_summary_length. exact Hid.
Qed.

Lemma summary_entry_single_any tempSpell :
  in_target_class (summary_entry tempSpell) SELECT_TARGET_SINGLE_ENEMY = true ->
  in_target_class (summary_entry tempSpell) SELECT_TARGET_ANY_ENEMY = true.
Proof.
  destruct tempSpell as [sp|]; cbn [summary_entry foldl].
  - do 3 apply slot_single_enemy_any_enemy.
    unfold in_target_class. cbn [zero_summary Targets].
    rewrite has_bit_zero. discriminate.
  - unfold in_target_class. cbn [zero_summary Targets].
    rewrite has_bit_zero. discriminate.
Qed.

Lemma summary_entry_periodic_heal sp (j : nat) :
  (j < 3)%nat ->
  Effect sp j = SPELL_EFFECT_APPLY_AURA ->
  EffectApplyAuraName sp j = 8 ->
  in_effect_class (summary_entry (Some sp)) SELECT_EFFECT_AURA = true
  /\ in_effect_class (summary_entry (Some sp)) SELECT_EFFECT_HEALING = true.
Proof.
  intros Hj He Ha. cbn [summary_entry foldl].
  destruct j as [|[|[|j]]]; [| | |lia].
  - destruct (slot_periodic_heal sp zero_summary 0 He Ha) as [H1 H2].
    split; do 2 (apply slot_keeps_effect_class; [discriminate|]); assumption.
  - destruct (slot_periodic_heal sp (summary_slot sp zero_summary 0) 1 He Ha)
      as [H1 H2].
    split; apply slot_keeps_effect_class; try discriminate; assumption.
  - apply slot_periodic_heal; assumption.
Qed.

(** C7.  [FillSpellSummary] returns, and in every cell of the array it
    builds: if the single-enemy class is set then the any-enemy class is
    set; and if the spell of that id has an effect slot that applies an
    aura of name 8 (periodic heal), the aura class and the healing class
    are both set. *)
Theorem summary_class_invariants (uninit : TSpellSummary) (w : World) :
  exists w',
    FillSpellSummary uninit w = Some (tt, w')
    /\ forall (i : nat) (s : TSpellSummary),
         SpellSummary w' !! i = Some s ->
         (in_target_class s SELECT_TARGET_SINGLE_ENEMY = true ->
          in_target_class s SELECT_TARGET_ANY_ENEMY = true)
         /\ (forall sp (j : nat),
               LookupEntry (SpellStore w) (Z.of_nat i) = Some sp ->
               (j < 3)%nat ->
               Effect sp j = SPELL_EFFECT_APPLY_AURA ->
               EffectApplyAuraName sp j = 8 ->
               in_effect_class s SELECT_EFFECT_AURA = true
               /\ in_effect_class s SELECT_EFFECT_HEALING = true).
Proof.
  eexists. split; [apply FillSpellSummary_run|].
  cbn [with_SpellSummary SpellSummary]. intros i s.
  rewrite fill_summary_lookup. case_decide; [|discriminate].
  intros [= <-]. split.
  - apply summary_entry_single_any.
  - intros sp j -> Hj He Ha. exact (summary_entry_periodic_heal sp j Hj He Ha).
Qed.

(** *** SelectSpell *)

Lemma fails_selectTargets_run args id sp w :
  summary_covers_store w ->
  LookupEntry (SpellStore w) id = Some sp ->
  fails_selectTargets args id w = Some (lacks_target_class w args id, w).
Proof.
  intros Hcov Hsp. apply LookupEntry_Some in Hsp. unfold GetMaxEntry in Hsp.
  unfold fails_selectTargets, lacks_target_class.
  destruct (negb (SelectTarget_value (selectTargets args) =? 0)); [|reflexivity].
  run. destruct (lookup_lt_is_Some_2 (SpellSummary w) (Z.to_nat id)) as [s Hs].
  { unfold summary_covers_store in Hcov. lia. }
  rewrite (array_read_Some _ _ s) by (lia || exact Hs).
  rewrite Hs. reflexivity.
Qed.

Lemma fails_selectEffects_run args id sp w :
  summary_covers_store w ->
  LookupEntry (SpellStore w) id = Some sp ->
  fails_selectEffects args id w = Some (lacks_effect_class w args id, w).
Proof.
  intros Hcov Hsp. apply LookupEntry_Some in Hsp. unfold GetMaxEntry in Hsp.
  unfold fails_selectEffects, lacks_effect_class.
  destruct (negb (SelectEffect_value (selectEffects args) =? 0)); [|reflexivity].
  run. destruct (lookup_lt_is_Some_2 (SpellSummary w) (Z.to_nat id)) as [s Hs].
  { unfold summary_covers_store in Hcov. lia. }
  rewrite (array_read_Some _ _ s) by (lia || exact Hs).
  rewrite Hs. reflexivity.
Qed.

Lemma stored_length acc : (length acc <= 4)%nat -> length (stored acc) = 4%nat.
Proof.
  intros H. unfold stored. rewrite length_app, length_fmap, length_replicate. lia.
Qed.

Lemma stored_snoc acc sp :
  (length acc < 4)%nat ->
  <[length acc := Some sp]> (stored acc) = stored (acc ++ [sp]).
Proof.
  intros H. unfold stored.
  rewrite insert_app_r_alt by (rewrite length_fmap; lia).
  rewrite length_fmap, Nat.sub_diag, fmap_app, <- app_assoc, length_app.
  cbn [length fmap list_fmap app].
  destruct (4 - length acc)%nat as [|k] eqn:E; [lia|].
  replace (4 - (length acc + 1))%nat with k by lia. reflexivity.
Qed.

Lemma stored_lookup acc (k : nat) sp :
  acc !! k = Some sp -> stored acc !! k = Some (Some sp).
Proof.
  intros H. unfold stored. rewrite lookup_app_l.
  - rewrite list_lookup_fmap, H. reflexivity.
  - rewrite length_fmap. eapply lookup_lt_Some, H.
Qed.

(** One turn of the loop stores the survivor of the slot, if any. *)
Lemma SelectSpell_body_run target args w i acc :
  summary_covers_store w ->
  (length acc < 4)%nat ->
  let acc' := acc ++ option_list (survivor target args w i) in
  SelectSpell_body target args i (stored acc, Z.of_nat (length acc)) w
  = Some ((stored acc', Z.of_nat (length acc')), w).
Proof.
  intros Hcov Hlen acc'. subst acc'.
  unfold SelectSpell_body, survivor. run.
  destruct (LookupEntry (SpellStore w) (m_spells (m_creature (ai w)) i))
    as [sp|] eqn:Esp.
  2: { cbn [option_list option_rect]. rewrite app_nil_r. reflexivity. }
  rewrite (fails_selectTargets_run _ _ sp) by assumption.
  destruct (lacks_target_class w args _).
  { cbn [option_list option_rect]. rewrite app_nil_r. reflexivity. }
  rewrite (fails_selectEffects_run _ _ sp) by assumption.
  destruct (lacks_effect_class w args _).
  { cbn [option_list option_rect]. rewrite app_nil_r. reflexivity. }
  destruct (unusable args _ target _ sp).
  { cbn [option_list option_rect]. rewrite app_nil_r. reflexivity. }
  cbn [option_list option_rect]. unfold array_write. rewrite stored_length by lia.
  destruct (Z.leb_spec 0 (Z.of_nat (length acc))); [|lia].
  destruct (Z.ltb_spec (Z.of_nat (length acc)) (Z.of_nat 4)); [|lia].
  cbn [andb]. run. rewrite Nat2Z.id, stored_snoc by exact Hlen.
  rewrite length_app. cbn [length].
  rewrite wrap32_small by (unfold is_uint32; lia).
  repeat f_equal. lia.
Qed.

Lemma SelectSpell_loop_run target args w idxs acc :
  summary_covers_store w ->
  (length acc + length idxs <= 4)%nat ->
  let acc' := acc ++ omap (survivor target args w) idxs in
  for_each idxs (SelectSpell_body target args)
           (stored acc, Z.of_nat (length acc)) w
  = Some ((stored acc', Z.of_nat (length acc')), w).
Proof.
  intros Hcov. revert acc.
  induction idxs as [|i idxs IH]; intros acc Hlen acc'; subst acc'.
  - cbn. rewrite app_nil_r. reflexivity.
  - cbn [for_each length] in *. rewrite bind_run.
    rewrite SelectSpell_body_run by (assumption || lia). cbv zeta.
    rewrite IH.
    + cbv zeta. rewrite <- app_assoc. cbn [omap list_omap].
      destruct (survivor target args w i); reflexivity.
    + rewrite length_app.
      destruct (survivor target args w i); cbn [option_list option_rect length]; lia.
Qed.

Lemma omap_length_le {A B} (f : A -> option B) (l : list A) :
  (length (omap f l) <= length l)%nat.
Proof.
  induction l as [|x l IH]; cbn [omap list_omap length]; [lia|].
  destruct (f x); cbn [length]; lia.
Qed.

Lemma candidates_length target args w :
  (length (candidates target args w) <= 4)%nat.
Proof.
  unfold candidates. destruct target as [t|]; [|cbn; lia].
  destruct (HasFlag_SILENCED _); [cbn; lia|].
  apply (omap_length_le (survivor t args w) [0; 1; 2; 3]%nat).
Qed.

(** [SelectSpell] in terms of the candidates: none when there is no
    candidate, else the cell of [spellInfos] that [urand] names. *)
Lemma SelectSpell_run target args w :
  summary_covers_store w ->
  let cands := candidates target args w in
  SelectSpell target args w =
    if Z.of_nat (length cands) =? 0 then Some (None, w)
    else array_read (stored cands)
           (urand 0 (wrap32 (Z.of_nat (length cands) - 1))) w.
Proof.
  intros Hcov cands. subst cands. unfold SelectSpell, candidates.
  destruct target as [t|]; [|reflexivity]. run.
  destruct (HasFlag_SILENCED (m_creature (ai w))); [reflexivity|].
  pose proof (SelectSpell_loop_run t args w [0; 1; 2; 3]%nat [] Hcov) as Hloop.
  cbn [length app] in Hloop. specialize (Hloop ltac:(lia)). cbv zeta in Hloop.
  change (stored []) with (replicate 4 (@None SpellEntry)) in Hloop.
  change (Z.of_nat 0) with 0 in Hloop.
  rewrite Hloop. destruct (_ =? 0); reflexivity.
Qed.

(** With [urand] within its bounds the value returned is the candidate at
    the index drawn. *)
Lemma SelectSpell_pick target args w :
  urand_in_range ->
  summary_covers_store w ->
  let cands := candidates target args w in
  SelectSpell target args w =
    Some (cands !! Z.to_nat (urand 0 (Z.of_nat (length cands) - 1)), w).
Proof.
  intros Hurand Hcov cands. rewrite SelectSpell_run by exact Hcov.
  cbv zeta. fold cands.
  pose proof (candidates_length target args w) as Hlen. fold cands in Hlen.
  destruct (Z.eqb_spec (Z.of_nat (length cands)) 0) as [E|E].
  - destruct cands; [reflexivity|discriminate].
  - rewrite wrap32_small by (unfold is_uint32; lia).
    destruct (Hurand 0 (Z.of_nat (length cands) - 1)) as [Hlo Hhi]; [lia|].
    destruct (lookup_lt_is_Some_2 cands
                (Z.to_nat (urand 0 (Z.of_nat (length cands) - 1)))) as [sp Hsp].
    { lia. }
    rewrite Hsp. apply array_read_Some; [exact Hlo|].
    apply stored_lookup, Hsp.
Qed.

Lemma survivor_passes target args w i sp :
  survivor target args w i = Some sp ->
  let c := m_creature (ai w) in
  LookupEntry (SpellStore w) (m_spells c i) = Some sp
  /\ lacks_target_class w args (m_spells c i) = false
  /\ lacks_effect_class w args (m_spells c i) = false
  /\ unusable args c target (SpellRangeStore w) sp = false.
Proof.
  unfold survivor. cbv zeta.
  destruct (LookupEntry _ _) as [sp'|]; [|discriminate].
  destruct (lacks_target_class _ _ _); [discriminate|].
  destruct (lacks_effect_class _ _ _); [discriminate|].
  destruct (unusable _ _ _ _ _) eqn:E; [discriminate|].
  intros [= <-]. auto.
Qed.

(** A usable spell is affordable, has a range entry, and its target is
    not within its minimum range and is within its maximum range. *)
Lemma usable_power_range args c target ranges sp :
  unusable args c target ranges sp = false ->
  manaCost sp <= GetPower c (powerType sp)
  /\ exists tempRange,
       LookupEntry ranges (rangeIndex sp) = Some tempRange
       /\ IsWithinDistInMap c target (minRange tempRange) = false
       /\ IsWithinDistInMap c target (maxRange tempRange) = true.
Proof.
  unfold unusable.
  destruct (_ && _); [discriminate|].
  destruct (_ && _); [discriminate|].
  destruct (_ && _); [discriminate|].
  destruct (_ && _); [discriminate|].
  destruct (Z.ltb_spec (GetPower c (powerType sp)) (manaCost sp)); [discriminate|].
  destruct (LookupEntry ranges (rangeIndex sp)) as [r|]; [|discriminate].
  destruct (_ && _); [discriminate|].
  destruct (_ && _); [discriminate|].
  intros Hd. apply orb_false_iff in Hd as [Hmin Hmax].
  apply negb_false_iff in Hmax.
  split; [lia|]. exists r. auto.
Qed.

Lemma has_target_class w args id :
  lacks_target_class w args id = false ->
  selectTargets args <> SELECT_TARGET_DONTCARE ->
  exists summary,
    SpellSummary w !! Z.to_nat id = Some summary
    /\ in_target_class summary (selectTargets args) = true.
Proof.
  unfold lacks_target_class. intros H Hne.
  destruct (Z.eqb_spec (SelectTarget_value (selectTargets args)) 0) as [E|_].
  { destruct (selectTargets args); cbn in E; congruence. }
  cbn [negb andb] in H.
  destruct (SpellSummary w !! Z.to_nat id) as [s|]; [|discriminate].
  exists s. split; [reflexivity|]. apply negb_false_iff, H.
Qed.

Lemma has_effect_class w args id :
  lacks_effect_class w args id = false ->
  selectEffects args <> SELECT_EFFECT_DONTCARE ->
  exists summary,
    SpellSummary w !! Z.to_nat id = Some summary
    /\ in_effect_class summary (selectEffects args) = true.
Proof.
  unfold lacks_effect_class. intros H Hne.
  destruct (Z.eqb_spec (SelectEffect_value (selectEffects args)) 0) as [E|_].
  { destruct (selectEffects args); cbn in E; congruence. }
  cbn [negb andb] in H.
  destruct (SpellSummary w !! Z.to_nat id) as [s|]; [|discriminate].
  exists s. split; [reflexivity|]. apply negb_false_iff, H.
Qed.

(** C4.  Without a target, or with the caster silenced, [SelectSpell]
    returns null at once: no array is read and the world is as it was.
    Otherwise, with [urand] within its bounds and the summary built, it
    returns a result, and a spell it returns is the spell of one of the
    four slots such that: its cost is at most the caster's power of its
    power type; it has a range entry and the target is not within its
    minimum range and is within its maximum range; and for a class asked
    for (a filter other than DONTCARE) the summary of its id has the bit of
    that class, for target classes and for effect classes. *)
Theorem SelectSpell_sound (w : World) (target : option Unit) (args : SelectArgs) :
  let c := m_creature (ai w) in
  (target = None \/ HasFlag_SILENCED c = true ->
   SelectSpell target args w = Some (None, w))
  /\ (urand_in_range -> summary_covers_store w ->
      exists r,
        SelectSpell target args w = Some (r, w)
        /\ forall sp, r = Some sp ->
           exists t (i : nat),
             target = Some t /\ (i < 4)%nat
             /\ LookupEntry (SpellStore w) (m_spells c i) = Some sp
             /\ manaCost sp <= GetPower c (powerType sp)
             /\ (exists tempRange,
                   LookupEntry (SpellRangeStore w) (rangeIndex sp) = Some tempRange
                   /\ IsWithinDistInMap c t (minRange tempRange) = false
                   /\ IsWithinDistInMap c t (maxRange tempRange) = true)
             /\ (selectTargets args <> SELECT_TARGET_DONTCARE ->
                 exists summary,
                   SpellSummary w !! Z.to_nat (m_spells c i) = Some summary
                   /\ in_target_class summary (selectTargets args) = true)
             /\ (selectEffects args <> SELECT_EFFECT_DONTCARE ->
                 exists summary,
                   SpellSummary w !! Z.to_nat (m_spells c i) = Some summary
                   /\ in_effect_class summary (selectEffects args) = true)).
Proof.
  intros c. subst c. split.
  - intros [-> | Hsil]; [reflexivity|].
    destruct target as [t|]; [|reflexivity].
    unfold SelectSpell. run. rewrite Hsil. reflexivity.
  - intros Hurand Hcov. eexists. split.
    { apply SelectSpell_pick; assumption. }
    cbv zeta. intros sp Hsp.
    apply list_elem_of_lookup_2 in Hsp. unfold candidates in Hsp.
    destruct target as [t|]; [|inversion Hsp].
    destruct (HasFlag_SILENCED (m_creature (ai w))); [inversion Hsp|].
    apply list_elem_of_omap in Hsp as (i & Hi & Hsurv).
    apply survivor_passes in Hsurv as (Hlook & Ht & He & Hu).
    apply usable_power_range in Hu as (Hpow & Hrange).
    exists t, i. split; [reflexivity|]. split.
    { apply list_elem_of_In in Hi. cbn in Hi. lia. }
    split; [exact Hlook|]. split; [exact Hpow|]. split; [exact Hrange|].
    split; [apply has_target_class, Ht|apply has_effect_class, He].
Qed.

(** C5.  With [urand] within its bounds and the summary built,
    [SelectSpell] returns a result and leaves the world as it was.  With
    no candidate the result is null; with one candidate it is that
    candidate, whatever [urand] gives; with more than one it is one of the
    candidates. *)
Theorem SelectSpell_picks_candidate (w : World) (target : option Unit)
    (args : SelectArgs) :
  urand_in_range ->
  summary_covers_store w ->
  let cands := candidates target args w in
  exists r,
    SelectSpell target args w = Some (r, w)
    /\ (cands = [] -> r = None)
    /\ (forall sp, cands = [sp] -> r = Some sp)
    /\ ((1 < length cands)%nat -> exists sp, r = Some sp /\ In sp cands).
Proof.
  intros Hurand Hcov cands. eexists. split.
  { apply SelectSpell_pick; assumption. }
  cbv zeta. fold cands. split; [|split].
  - intros ->. reflexivity.
  - intros sp ->. cbn [length].
    destruct (Hurand 0 (1 - 1)) as [Hlo Hhi]; [lia|].
    change (Z.of_nat 1 - 1) with (1 - 1).
    replace (urand 0 (1 - 1)) with 0 by lia. reflexivity.
  - intros Hlen.
    destruct (Hurand 0 (Z.of_nat (length cands) - 1)) as [Hlo Hhi]; [lia|].
    destruct (lookup_lt_is_Some_2 cands
                (Z.to_nat (urand 0 (Z.of_nat (length cands) - 1)))) as [sp Hsp].
    { lia. }
    exists sp. split; [exact Hsp|].
    apply list_elem_of_In. eapply list_elem_of_lookup_2, Hsp.
Qed.

(** *** DoResetThreat *)

Lemma with_threat_same w : with_threat (getThreatList (m_creature (ai w))) w = w.
Proof. destruct w as [[[] ?] ? ? ? ?]. reflexivity. Qed.

Lemma threat_reduced_by_100 ref :
  refThreat (addThreatPercent (-100) ref) = 0%Q.
Proof.
  unfold addThreatPercent. cbn [refThreat].
  change 0%Q with (Qred 0). apply Qred_complete.
  destruct (refThreat ref) as [n d]. unfold Qeq, Qplus, Qmult. cbn. lia.
Qed.

Lemma addThreatPercent_guid pct ref :
  getUnitGuid (addThreatPercent pct ref) = getUnitGuid ref.
Proof. reflexivity. Qed.

Lemma reset_reference_guid ref :
  getUnitGuid (reset_reference ref) = getUnitGuid ref.
Proof.
  unfold reset_reference. destruct (GetUnit _); [|reflexivity].
  destruct (fnonzero _); reflexivity.
Qed.

(** The loop of [DoResetThreat] acts on the threat list as [reset_step]
    does, and on nothing else. *)
Lemma DoResetThreat_loop_run (refs : list HostileReference) (w : World) :
  for_each refs (fun itr _ =>
      match GetUnit (getUnitGuid itr) with
      | Some unit =>
          c ← creature;
          if fnonzero (getThreat c unit) then modifyThreatPercent unit (-100)
          else mret tt
      | None => mret tt
      end) tt w
  = Some (tt, with_threat
                (foldl reset_step (getThreatList (m_creature (ai w)))
                       (getUnitGuid <$> refs)) w).
Proof.
  revert w. induction refs as [|ref refs IH]; intros w.
  - cbn. rewrite with_threat_same. reflexivity.
  - cbn [for_each fmap list_fmap foldl]. rewrite bind_run.
    unfold reset_step at 2.
    destruct (GetUnit (getUnitGuid ref)) as [unit|].
    + run. unfold getThreat.
      destruct (fnonzero (find_threat _ unit)).
      * unfold modifyThreatPercent. cbv zeta. rewrite IH. reflexivity.
      * rewrite IH. reflexivity.
    + run. rewrite IH. reflexivity.
Qed.

Lemma fmap_unchanged {A} (f : A -> A) (l : list A) :
  (forall x, In x l -> f x = x) -> f <$> l = l.
Proof.
  induction l as [|x l IH]; intros H; [reflexivity|].
  cbn [fmap list_fmap]. rewrite (H x) by (left; reflexivity).
  f_equal. apply IH. intros y Hy. apply H. right. exact Hy.
Qed.

(** With one entry per guid, a turn for [guid] resets the entry of that
    guid and leaves the others. *)
Lemma reset_step_map (l : list HostileReference) (guid : Z) :
  GetUnit_by_guid ->
  NoDup (getUnitGuid <$> l) ->
  reset_step l guid
  = (fun ref => if getUnitGuid ref =? guid then reset_reference ref else ref)
      <$> l.
Proof.
  intros Hguid Hnd. unfold reset_step.
  destruct (GetUnit guid) as [unit|] eqn:Eu.
  2: { symmetry. apply fmap_unchanged. intros ref _.
       destruct (Z.eqb_spec (getUnitGuid ref) guid) as [E|_]; [|reflexivity].
       unfold reset_reference. rewrite E, Eu. reflexivity. }
  pose proof (Hguid _ _ Eu) as Hu.
  induction l as [|ref l IH]; [destruct (fnonzero _); reflexivity|].
  cbn [fmap list_fmap] in Hnd. apply NoDup_cons in Hnd as [Hnotin Hnd].
  specialize (IH Hnd).
  unfold find_threat in *. cbn [List.find update_reference fmap list_fmap].
  unfold refers_to at 1 3. rewrite Hu.
  destruct (Z.eqb_spec (getUnitGuid ref) guid) as [E|E].
  - assert (Hrest : (fun ref => if getUnitGuid ref =? guid
                                then reset_reference ref else ref) <$> l = l).
    { apply fmap_unchanged. intros r Hr.
      destruct (Z.eqb_spec (getUnitGuid r) guid) as [E'|_]; [|reflexivity].
      exfalso. apply Hnotin. rewrite E, <- E'.
      apply list_elem_of_fmap_2, list_elem_of_In, Hr. }
    rewrite Hrest. unfold reset_reference. rewrite E, Eu.
    destruct (fnonzero (refThreat ref)); reflexivity.
  - destruct (fnonzero _); rewrite <- IH; reflexivity.
Qed.

Lemma reset_step_guids (l : list HostileReference) (guid : Z) :
  GetUnit_by_guid ->
  NoDup (getUnitGuid <$> l) ->
  getUnitGuid <$> reset_step l guid = getUnitGuid <$> l.
Proof.
  intros Hguid Hnd. rewrite reset_step_map by assumption.
  rewrite <- list_fmap_compose. apply list_fmap_ext. intros i ref _.
  cbn. destruct (_ =? _); [apply reset_reference_guid|reflexivity].
Qed.

(** Turns for distinct guids reset the entries of those guids. *)
Lemma reset_steps_map (guids : list Z) (l : list HostileReference) :
  GetUnit_by_guid ->
  NoDup guids ->
  NoDup (getUnitGuid <$> l) ->
  foldl reset_step l guids
  = (fun ref => if bool_decide (getUnitGuid ref ∈ guids)
                then reset_reference ref else ref) <$> l.
Proof.
  clear GetDistance2d IsInRange IsWithinDistInMap urand.
  intros Hguid. revert l.
  induction guids as [|g guids IH]; intros l Hg Hnd.
  - cbn [foldl]. symmetry. apply fmap_unchanged. intros ref _.
    rewrite bool_decide_eq_false_2 by apply not_elem_of_nil. reflexivity.
  - cbn [foldl]. apply NoDup_cons in Hg as [Hnotin Hg].
    rewrite IH by (try rewrite reset_step_guids; assumption).
    rewrite reset_step_map by assumption.
    rewrite <- list_fmap_compose. apply list_fmap_ext. intros i ref _. cbn.
    destruct (Z.eqb_spec (getUnitGuid ref) g) as [E|E].
    + rewrite reset_reference_guid, E.
      rewrite bool_decide_eq_false_2 by exact Hnotin.
      rewrite bool_decide_eq_true_2 by apply list_elem_of_here. reflexivity.
    + destruct (bool_decide (getUnitGuid ref ∈ guids)) eqn:Ein.
      * apply bool_decide_eq_true_1 in Ein.
        rewrite bool_decide_eq_true_2 by (apply list_elem_of_further, Ein).
        reflexivity.
      * apply bool_decide_eq_false_1 in Ein.
        rewrite bool_decide_eq_false_2; [reflexivity|].
        intros H. apply elem_of_cons in H as [H|H]; [congruence|tauto].
Qed.

(** The whole loop over a list with one entry per guid. *)
Lemma reset_all (l : list HostileReference) :
  GetUnit_by_guid ->
  NoDup (getUnitGuid <$> l) ->
  foldl reset_step l (getUnitGuid <$> l) = reset_reference <$> l.
Proof.
  intros Hguid Hnd. rewrite reset_steps_map by assumption.
  apply list_fmap_ext. intros i ref Hi.
  rewrite bool_decide_eq_true_2; [reflexivity|].
  apply list_elem_of_fmap_2, list_elem_of_lookup_2 with i, Hi.
Qed.

(** C9.  On a creature that cannot have a threat list, or whose list is
    empty, [DoResetThreat] logs one diagnostic line and changes nothing
    else.  Otherwise, the list having one entry per unit and [GetUnit]
    giving the unit of the guid asked for, no line is logged, the list
    keeps its length and order, and each entry keeps its guid: the threat
    of an entry whose unit resolves and whose threat is not zero becomes
    zero, and every other entry is unchanged. *)
Theorem DoResetThreat_spec (w : World) :
  let c := m_creature (ai w) in
  let l := getThreatList c in
  (CanHaveThreatList c = false \/ l = [] ->
   DoResetThreat w
   = Some (tt, with_calls
                 (calls w ++ [script_error_log msg_no_threat_list (GetEntry c)]) w))
  /\ (CanHaveThreatList c = true -> l <> [] ->
      GetUnit_by_guid ->
      NoDup (getUnitGuid <$> l) ->
      exists l',
        DoResetThreat w = Some (tt, with_threat l' w)
        /\ calls (with_threat l' w) = calls w
        /\ length l' = length l
        /\ forall (i : nat) ref, l !! i = Some ref ->
           exists ref',
             l' !! i = Some ref'
             /\ getUnitGuid ref' = getUnitGuid ref
             /\ (is_Some (GetUnit (getUnitGuid ref)) ->
                 ~ (refThreat ref == 0)%Q ->
                 refThreat ref' = 0%Q)
             /\ (GetUnit (getUnitGuid ref) = None \/ (refThreat ref == 0)%Q ->
                 ref' = ref)).
Proof.
  clear GetDistance2d IsInRange IsWithinDistInMap urand.
  intros c l. subst c l. split.
  - intros Hguard. unfold DoResetThreat. run.
    replace (negb (CanHaveThreatList (m_creature (ai w)))
             || isThreatListEmpty (m_creature (ai w))) with true; [reflexivity|].
    symmetry. destruct Hguard as [-> | Hl]; [reflexivity|].
    unfold isThreatListEmpty. rewrite Hl. apply orb_true_r.
  - intros Hcan Hne Hguid Hnd.
    exists (reset_reference <$> getThreatList (m_creature (ai w))).
    split; [|split; [reflexivity|split; [apply length_fmap|]]].
    + unfold DoResetThreat. run. rewrite Hcan.
      unfold isThreatListEmpty.
      destruct (getThreatList (m_creature (ai w))) as [|r0 l0] eqn:El;
        [congruence|].
      cbn [negb orb]. rewrite DoResetThreat_loop_run, El.
      rewrite reset_all by assumption. reflexivity.
    + intros i ref Hi. exists (reset_reference ref).
      split; [rewrite list_lookup_fmap, Hi; reflexivity|].
      split; [apply reset_reference_guid|].
      unfold reset_reference, fnonzero. split.
      * intros [u ->] Hnz.
        destruct (Qeq_bool (refThreat ref) 0) eqn:E.
        { apply Qeq_bool_iff in E. contradiction. }
        apply threat_reduced_by_100.
      * intros [-> | Hz]; [reflexivity|].
        apply Qeq_bool_iff in Hz. rewrite Hz.
        destruct (GetUnit _); reflexivity.
Qed.

(** *** More on the evade check *)


(** One call, as the throttle sees it: the cooldown stays within
    [[0, 2500]], and 2500 times the number of tests made, less the
    cooldown, grows by at most [diff]. *)
Lemma evade_check_potential (w : World) (diff : Z) :
  is_uint32 diff ->
  0 <= m_uiEvadeCheckCooldown (ai w) <= 2500 ->
  exists b w',
    EnterEvadeIfOutOfCombatArea diff w = Some (b, w')
    /\ 0 <= m_uiEvadeCheckCooldown (ai w') <= 2500
    /\ 2500 * (tests (calls w') - tests (calls w))
       <= diff + m_uiEvadeCheckCooldown (ai w') - m_uiEvadeCheckCooldown (ai w).
Proof.
  clear IsInRange IsWithinDistInMap GetUnit urand.
  intros Hd Hc. unfold is_uint32 in Hd.
  destruct (Z.lt_ge_cases (m_uiEvadeCheckCooldown (ai w)) diff) as [Hlt|Hge].
  - rewrite evade_elapsed by exact Hlt. cbv zeta.
    destruct (IsInEvadeMode _ || is_null _).
    + eexists _, _. split; [reflexivity|].
      cbn [m_uiEvadeCheckCooldown ai with_cooldown with_ai calls]. lia.
    + destruct (combat_area_switch _); eexists _, _; (split; [reflexivity|]);
        cbn [m_uiEvadeCheckCooldown ai with_cooldown with_ai calls with_calls];
        unfold tests; rewrite !count_app; cbn [count List.filter is_switch length];
        lia.
  - rewrite evade_waiting by exact Hge.
    rewrite wrap32_small by (unfold is_uint32; lia).
    eexists _, _. split; [reflexivity|].
    cbn [m_uiEvadeCheckCooldown ai with_cooldown with_ai calls]. lia.
Qed.

(** X1.  The throttle.  Over any run of updates, whatever the engine does to
    the creature in between, the check returns each time, the cooldown
    stays within [[0, 2500]], and 2500 times the number of geometric tests
    made is at most the time elapsed plus the cooldown gained.  For a new
    AI, whose cooldown is 2500, the tests number at most one per 2500 of
    elapsed time. *)
Theorem evade_checks_throttled (updates : list (Creature * Z)) (w : World) :
  Forall (fun u => is_uint32 (snd u)) updates ->
  0 <= m_uiEvadeCheckCooldown (ai w) <= 2500 ->
  exists bs w',
    evade_checks updates w = Some (bs, w')
    /\ length bs = length updates
    /\ 0 <= m_uiEvadeCheckCooldown (ai w') <= 2500
    /\ 2500 * (tests (calls w') - tests (calls w))
       <= elapsed updates
          + m_uiEvadeCheckCooldown (ai w') - m_uiEvadeCheckCooldown (ai w)
    /\ (m_uiEvadeCheckCooldown (ai w) = 2500 ->
        2500 * (tests (calls w') - tests (calls w)) <= elapsed updates).
Proof.
  clear IsInRange IsWithinDistInMap GetUnit urand.
  intros Hds. revert w.
  induction Hds as [|[c diff] rest Hd Hrest IH]; intros w Hc.
  - exists [], w. cbn. repeat split; try reflexivity; lia.
  - cbn [evade_checks]. rewrite bind_run. cbn [engine_sets].
    destruct (evade_check_potential (with_creature c w) diff Hd Hc)
      as (b & w1 & Hrun & Hc1 & Hpot).
    rewrite bind_run, Hrun.
    destruct (IH w1 Hc1) as (bs & w2 & Hrest_run & Hlen & Hc2 & Hpot2 & _).
    rewrite bind_run, Hrest_run. exists (b :: bs), w2.
    split; [reflexivity|]. split; [cbn; lia|]. split; [exact Hc2|].
    change (calls (with_creature c w)) with (calls w) in Hpot.
    change (m_uiEvadeCheckCooldown (ai (with_creature c w)))
      with (m_uiEvadeCheckCooldown (ai w)) in Hpot.
    cbn [elapsed foldr snd]. fold (elapsed rest).
    split; [lia|]. intros Hnew. lia.
Qed.

Lemma switch_registered c :
  In (GetEntry c) evade_entries -> combat_area_switch c <> Default.
Proof.
  clear IsInRange IsWithinDistInMap GetUnit urand.
  unfold evade_entries. cbn [In]. unfold combat_area_switch.
  destruct (GetRespawnCoord c) as [[rx ry] rz].
  intros H. repeat (destruct H as [<-|H]; [cbn -[fltb];
    unfold case_NPC_ANUBARAK;
    repeat match goal with
    | |- context [if ?b then _ else _] => destruct b
    end; discriminate|]).
  contradiction.
Qed.

(** X3.  The diagnostic of the check is for entries without a case, and only
    for them: a call logs at most one line, and it logs one exactly when
    the cooldown has elapsed, the actor is not evading, has a victim, and
    its entry is none of the eleven of the switch. *)
Theorem evade_diagnostic_iff (w : World) (diff : Z) :
  let c := m_creature (ai w) in
  exists b w',
    EnterEvadeIfOutOfCombatArea diff w = Some (b, w')
    /\ (count is_log (calls w') <= S (count is_log (calls w)))%nat
    /\ (count is_log (calls w') = S (count is_log (calls w))
        <-> m_uiEvadeCheckCooldown (ai w) < diff
            /\ IsInEvadeMode c = false
            /\ is_Some (getVictim c)
            /\ ~ In (GetEntry c) evade_entries).
Proof.
  clear IsInRange IsWithinDistInMap GetUnit urand.
  intros c. subst c.
  destruct (Z.lt_ge_cases (m_uiEvadeCheckCooldown (ai w)) diff) as [Hlt|Hge].
  - rewrite evade_elapsed by exact Hlt. cbv zeta.
    destruct (IsInEvadeMode (m_creature (ai w))) eqn:Hev; cbn [orb].
    { eexists _, _. split; [reflexivity|]. cbn [calls with_cooldown with_ai].
      split; [lia|]. split; [lia|]. intros (_ & H & _). discriminate. }
    destruct (getVictim (m_creature (ai w))) as [v|] eqn:Hv; cbn [is_null].
    2: { eexists _, _. split; [reflexivity|]. cbn [calls with_cooldown with_ai].
         split; [lia|]. split; [lia|]. intros (_ & _ & [v Hv'] & _).
         discriminate. }
    destruct (combat_area_switch (m_creature (ai w))) eqn:Hsw;
      eexists _, _; (split; [reflexivity|]);
      cbn [calls with_calls with_cooldown with_ai]; rewrite !count_app;
      cbn [count List.filter is_log length]; (split; [lia|]).
    + split; [lia|]. intros (_ & _ & _ & Hnot).
      rewrite (switch_default _ Hnot) in Hsw. discriminate.
    + split; [lia|]. intros (_ & _ & _ & Hnot).
      rewrite (switch_default _ Hnot) in Hsw. discriminate.
    + split; [|intros _; lia]. intros _.
      split; [exact Hlt|]. split; [reflexivity|]. split; [eexists; reflexivity|].
      intros Hin. exact (switch_registered _ Hin Hsw).
  - rewrite evade_waiting by exact Hge.
    eexists _, _. split; [reflexivity|]. cbn [calls with_cooldown with_ai].
    split; [lia|]. split; [lia|]. intros (H & _). lia.
Qed.

(** X4.  Nethermancer Sepethrea, in combat with a victim, not evading, the
    cooldown elapsed.  While [x > 266] the check returns false and calls
    nothing; otherwise it calls [EnterEvadeMode] (the engine's evade, then
    [Reset], once each) and returns true. *)
Theorem evade_sepethrea (w : World) (diff : Z) :
  let c := m_creature (ai w) in
  GetEntry c = NPC_NETHERMANCER_SEPETHREA ->
  m_uiEvadeCheckCooldown (ai w) < diff ->
  IsInEvadeMode c = false ->
  is_Some (getVictim c) ->
  let tested := with_calls (calls w ++ [CombatAreaSwitch (GetEntry c)])
                  (with_cooldown 2500 w) in
  let evaded := with_calls (calls tested ++ [CreatureAI_EnterEvadeMode; AI_Reset])
                  tested in
  ((266.0 < GetPositionX c)%Q ->
     EnterEvadeIfOutOfCombatArea diff w = Some (false, tested))
  /\ ((GetPositionX c <= 266.0)%Q ->
      EnterEvadeIfOutOfCombatArea diff w = Some (true, evaded)).
Proof.
  clear IsInRange IsWithinDistInMap GetUnit urand.
  intros c He Hlt Hev [v Hv] tested evaded.
  assert (Hsw : combat_area_switch c
                = if fltb 266.0 (GetPositionX c) then ReturnFalse else Break).
  { unfold combat_area_switch. rewrite He. reflexivity. }
  rewrite evade_elapsed by exact Hlt. cbv zeta. fold c.
  rewrite Hev, Hv, Hsw. cbn [orb is_null]. split.
  - intros Hx. apply fltb_lt in Hx. rewrite Hx. reflexivity.
  - intros Hx. apply fltb_ge in Hx. rewrite Hx.
    unfold evaded. cbn [calls with_calls]. rewrite <- app_assoc. reflexivity.
Qed.

(** *** More on CanCast *)

(** X5.  A triggered cast skips the silence and power checks and nothing else:
    [CanCast] of a cast that is not triggered is [CanCast] of the triggered
    one, and not silenced, and able to pay.  So whatever may be cast
    untriggered may be cast triggered. *)
Theorem CanCast_triggered (w : World) (target : option Unit)
    (spellInfo : option SpellEntry) :
  let c := m_creature (ai w) in
  exists b,
    CanCast target spellInfo true w = Some (b, w)
    /\ CanCast target spellInfo false w
       = Some (b && negb (HasFlag_SILENCED c) && affordable c spellInfo, w)
    /\ (CanCast target spellInfo false w = Some (true, w) -> b = true).
Proof.
  intros c. subst c.
  assert (H : exists b,
    CanCast target spellInfo true w = Some (b, w)
    /\ CanCast target spellInfo false w
       = Some (b && negb (HasFlag_SILENCED (m_creature (ai w)))
                 && affordable (m_creature (ai w)) spellInfo, w)).
  { destruct target as [t|]; [|exists false; split; reflexivity].
    destruct spellInfo as [sp|]; [|exists false; split; reflexivity].
    unfold CanCast, affordable. run. cbn [negb andb].
    destruct (HasFlag_SILENCED (m_creature (ai w)));
      destruct (GetPower (m_creature (ai w)) (powerType sp) <? manaCost sp);
      cbn [negb andb];
      destruct (LookupEntry (SpellRangeStore w) (rangeIndex sp)) as [r|];
      try destruct (IsInRange (m_creature (ai w)) t (minRange r) (maxRange r));
      cbn [negb]; eexists; split; try reflexivity;
      rewrite ?andb_false_r; reflexivity. }
  destruct H as (b & Ht & Hf). exists b. split; [exact Ht|]. split; [exact Hf|].
  rewrite Hf. intros [= Hb]. destruct b; [reflexivity|discriminate].
Qed.

(** *** More on SelectSpell *)

Lemma SelectSpell_returns_survivor target args w sp w' :
  urand_in_range ->
  summary_covers_store w ->
  SelectSpell target args w = Some (Some sp, w') ->
  exists t (i : nat),
    target = Some t /\ (i < 4)%nat /\ survivor t args w i = Some sp.
Proof.
  clear GetDistance2d IsInRange GetUnit.
  intros Hurand Hcov. rewrite SelectSpell_pick by assumption. cbv zeta.
  intros [= Hsp _]. apply list_elem_of_lookup_2 in Hsp.
  unfold candidates in Hsp.
  destruct target as [t|]; [|inversion Hsp].
  destruct (HasFlag_SILENCED (m_creature (ai w))); [inversion Hsp|].
  apply list_elem_of_omap in Hsp as (i & Hi & Hsurv).
  exists t, i. split; [reflexivity|]. split; [|exact Hsurv].
  apply list_elem_of_In in Hi. cbn in Hi. lia.
Qed.

(** What the checks on school, mechanic, cost and range leave through. *)
Lemma usable_filters args c target ranges sp :
  unusable args c target ranges sp = false ->
  (0 <= school args -> Z.land (SchoolMask sp) (school args) = 0)
  /\ (0 <= mechanic args -> Mechanic sp = wrap32 (mechanic args))
  /\ (powerCostMin args <> 0 -> powerCostMin args <= manaCost sp)
  /\ (powerCostMax args <> 0 -> manaCost sp <= powerCostMax args)
  /\ forall tempRange,
       LookupEntry ranges (rangeIndex sp) = Some tempRange ->
       (~ (rangeMin args == 0)%Q -> (rangeMin args <= maxRange tempRange)%Q)
       /\ (~ (rangeMax args == 0)%Q -> (maxRange tempRange <= rangeMax args)%Q).
Proof.
  clear GetDistance2d IsInRange GetUnit urand.
  unfold unusable.
  destruct (Z.leb_spec 0 (school args)) as [Hs|Hs];
    destruct (Z.eqb_spec (Z.land (SchoolMask sp) (school args)) 0) as [Hl|Hl];
    cbn [negb andb]; try discriminate.
  all: destruct (Z.leb_spec 0 (mechanic args)) as [Hm|Hm];
    destruct (Z.eqb_spec (Mechanic sp) (wrap32 (mechanic args))) as [Hq|Hq];
    cbn [negb andb]; try discriminate.
  all: destruct (Z.eqb_spec (powerCostMin args) 0) as [Hn|Hn];
    destruct (Z.ltb_spec (manaCost sp) (powerCostMin args)) as [Hc|Hc];
    cbn [negb andb]; try discriminate.
  all: destruct (Z.eqb_spec (powerCostMax args) 0) as [Hx|Hx];
    destruct (Z.ltb_spec (powerCostMax args) (manaCost sp)) as [Hd|Hd];
    cbn [negb andb]; try discriminate.
  all: destruct (GetPower c (powerType sp) <? manaCost sp); try discriminate.
  all: destruct (LookupEntry ranges (rangeIndex sp)) as [r|]; try discriminate.
  all: unfold fnonzero;
    destruct (Qeq_bool (rangeMin args) 0) eqn:Hrn;
    destruct (fltb (maxRange r) (rangeMin args)) eqn:Hrl;
    cbn [negb andb]; try discriminate.
  all: destruct (Qeq_bool (rangeMax args) 0) eqn:Hrx;
    destruct (fltb (rangeMax args) (maxRange r)) eqn:Hrg;
    cbn [negb andb]; try discriminate.
  all: intros _; do 4 (split; [intros; lia|]).
  all: intros tempRange [= <-]; split; intros Hnz.
  all: try (apply fltb_ge; assumption).
  all: exfalso; apply Hnz; apply Qeq_bool_iff; assumption.
Qed.

(** X6.  A spell that [SelectSpell] returns also meets the caller's bounds: it
    is not of an excluded school, it has the mechanic asked for, its cost
    is within the cost bounds and its maximum range within the range
    bounds, a bound of zero (a negative school or mechanic) being no
    bound. *)
Theorem SelectSpell_respects_filters (w w' : World) (target : option Unit)
    (args : SelectArgs) (sp : SpellEntry) :
  urand_in_range ->
  summary_covers_store w ->
  SelectSpell target args w = Some (Some sp, w') ->
  (0 <= school args -> Z.land (SchoolMask sp) (school args) = 0)
  /\ (0 <= mechanic args < 2 ^ 31 -> Mechanic sp = mechanic args)
  /\ (powerCostMin args <> 0 -> powerCostMin args <= manaCost sp)
  /\ (powerCostMax args <> 0 -> manaCost sp <= powerCostMax args)
  /\ exists tempRange,
       LookupEntry (SpellRangeStore w) (rangeIndex sp) = Some tempRange
       /\ (~ (rangeMin args == 0)%Q -> (rangeMin args <= maxRange tempRange)%Q)
       /\ (~ (rangeMax args == 0)%Q -> (maxRange tempRange <= rangeMax args)%Q).
Proof.
  clear GetDistance2d IsInRange GetUnit.
  intros Hurand Hcov Hrun.
  destruct (SelectSpell_returns_survivor _ _ _ _ _ Hurand Hcov Hrun)
    as (t & i & _ & _ & Hsurv).
  apply survivor_passes in Hsurv as (_ & _ & _ & Hu).
  pose proof (usable_filters _ _ _ _ _ Hu) as (Hs & Hm & Hmin & Hmax & Hr).
  apply usable_power_range in Hu as (_ & r & Hlook & _).
  split; [exact Hs|]. split.
  { intros Hrange. rewrite Hm by lia. apply wrap32_small.
    unfold is_uint32. lia. }
  split; [exact Hmin|]. split; [exact Hmax|].
  exists r. split; [exact Hlook|]. exact (Hr r Hlook).
Qed.

(** X7.  No candidate is out of reach: the candidate at index [k] is what
    [SelectSpell] returns when [urand] draws [k]. *)
Theorem SelectSpell_reaches_candidate (w : World) (target : option Unit)
    (args : SelectArgs) (k : nat) (sp : SpellEntry) :
  summary_covers_store w ->
  let cands := candidates target args w in
  cands !! k = Some sp ->
  urand 0 (Z.of_nat (length cands) - 1) = Z.of_nat k ->
  SelectSpell target args w = Some (Some sp, w).
Proof.
  clear GetDistance2d IsInRange GetUnit.
  intros Hcov cands Hk Hdraw. rewrite SelectSpell_run by exact Hcov.
  cbv zeta. fold cands.
  pose proof (candidates_length target args w) as Hlen. fold cands in Hlen.
  pose proof (lookup_lt_Some _ _ _ Hk) as Hlt.
  destruct (Z.eqb_spec (Z.of_nat (length cands)) 0) as [E|_]; [lia|].
  rewrite wrap32_small by (unfold is_uint32; lia). rewrite Hdraw.
  apply array_read_Some; [lia|]. rewrite Nat2Z.id.
  apply stored_lookup, Hk.
Qed.




Lemma covered_reads_defined args w :
  summary_covers_store w -> summary_reads_defined args w.
Proof.
  clear GetDistance2d IsInRange IsWithinDistInMap GetUnit urand.
  intros Hcov id sp Hsp. split.
  - exact (fails_selectTargets_run args id sp w Hcov Hsp).
  - exact (fails_selectEffects_run args id sp w Hcov Hsp).
Qed.

Lemma no_class_reads_defined args w :
  selectTargets args = SELECT_TARGET_DONTCARE ->
  selectEffects args = SELECT_EFFECT_DONTCARE ->
  summary_reads_defined args w.
Proof.
  clear GetDistance2d IsInRange IsWithinDistInMap GetUnit urand.
  intros Ht He id sp _.
  unfold fails_selectTargets, fails_selectEffects,
         lacks_target_class, lacks_effect_class.
  rewrite Ht, He. split; reflexivity.
Qed.

Lemma SelectSpell_body_reads target args w i acc :
  summary_reads_defined args w ->
  (length acc < 4)%nat ->
  let acc' := acc ++ option_list (survivor target args w i) in
  SelectSpell_body target args i (stored acc, Z.of_nat (length acc)) w
  = Some ((stored acc', Z.of_nat (length acc')), w).
Proof.
  clear GetDistance2d IsInRange GetUnit urand.
  intros Hreads Hlen acc'. subst acc'.
  unfold SelectSpell_body, survivor. run.
  destruct (LookupEntry (SpellStore w) (m_spells (m_creature (ai w)) i))
    as [sp|] eqn:Esp.
  2: { cbn [option_list option_rect]. rewrite app_nil_r. reflexivity. }
  destruct (Hreads _ _ Esp) as [Ht He]. rewrite Ht.
  destruct (lacks_target_class w args _).
  { cbn [option_list option_rect]. rewrite app_nil_r. reflexivity. }
  rewrite He.
  destruct (lacks_effect_class w args _).
  { cbn [option_list option_rect]. rewrite app_nil_r. reflexivity. }
  destruct (unusable args _ target _ sp).
  { cbn [option_list option_rect]. rewrite app_nil_r. reflexivity. }
  cbn [option_list option_rect]. unfold array_write.
  rewrite stored_length by lia.
  destruct (Z.leb_spec 0 (Z.of_nat (length acc))); [|lia].
  destruct (Z.ltb_spec (Z.of_nat (length acc)) (Z.of_nat 4)); [|lia].
  cbn [andb]. run. rewrite Nat2Z.id, stored_snoc by exact Hlen.
  rewrite length_app. cbn [length].
  rewrite wrap32_small by (unfold is_uint32; lia).
  repeat f_equal. lia.
Qed.

Lemma SelectSpell_loop_reads target args w idxs acc :
  summary_reads_defined args w ->
  (length acc + length idxs <= 4)%nat ->
  let acc' := acc ++ omap (survivor target args w) idxs in
  for_each idxs (SelectSpell_body target args)
           (stored acc, Z.of_nat (length acc)) w
  = Some ((stored acc', Z.of_nat (length acc')), w).
Proof.
  clear GetDistance2d IsInRange GetUnit urand.
  intros Hreads. revert acc.
  induction idxs as [|i idxs IH]; intros acc Hlen acc'; subst acc'.
  - cbn. rewrite app_nil_r. reflexivity.
  - cbn [for_each length] in *. rewrite bind_run.
    rewrite SelectSpell_body_reads by (assumption || lia). cbv zeta.
    rewrite IH.
    + cbv zeta. rewrite <- app_assoc. cbn [omap list_omap].
      destruct (survivor target args w i); reflexivity.
    + rewrite length_app.
      destruct (survivor target args w i);
        cbn [option_list option_rect length]; lia.
Qed.

Lemma SelectSpell_pick_reads target args w :
  urand_in_range ->
  summary_reads_defined args w ->
  let cands := candidates target args w in
  SelectSpell target args w =
    Some (cands !! Z.to_nat (urand 0 (Z.of_nat (length cands) - 1)), w).
Proof.
  clear GetDistance2d IsInRange GetUnit.
  intros Hurand Hreads cands. subst cands.
  pose proof (candidates_length target args w) as Hlen.
  unfold SelectSpell, candidates in *.
  destruct target as [t|]; [|reflexivity]. run.
  destruct (HasFlag_SILENCED (m_creature (ai w))); [reflexivity|].
  pose proof (SelectSpell_loop_reads t args w [0; 1; 2; 3]%nat [] Hreads) as Hloop.
  cbn [length app] in Hloop. specialize (Hloop ltac:(lia)). cbv zeta in Hloop.
  change (stored []) with (replicate 4 (@None SpellEntry)) in Hloop.
  change (Z.of_nat 0) with 0 in Hloop.
  rewrite Hloop.
  set (cands := omap (survivor t args w) [0; 1; 2; 3]%nat) in *.
  destruct (Z.eqb_spec (Z.of_nat (length cands)) 0) as [E|E].
  - destruct cands; [reflexivity|discriminate].
  - rewrite wrap32_small by (unfold is_uint32; lia).
    destruct (Hurand 0 (Z.of_nat (length cands) - 1)) as [Hlo Hhi]; [lia|].
    destruct (lookup_lt_is_Some_2 cands
                (Z.to_nat (urand 0 (Z.of_nat (length cands) - 1)))) as [sp Hsp].
    { lia. }
    rewrite Hsp. apply array_read_Some; [exact Hlo|].
    apply stored_lookup, Hsp.
Qed.

Lemma omap_pointwise {A B} (f g : A -> option B) (l : list A) :
  (forall x, f x = g x) -> omap f l = omap g l.
Proof.
  intros Hfg. induction l as [|x l IH]; [reflexivity|].
  cbn [omap list_omap]. rewrite Hfg, IH. reflexivity.
Qed.

Lemma candidates_no_class target args w arr :
  selectTargets args = SELECT_TARGET_DONTCARE ->
  selectEffects args = SELECT_EFFECT_DONTCARE ->
  candidates target args (with_SpellSummary arr w) = candidates target args w.
Proof.
  clear GetDistance2d IsInRange GetUnit urand.
  intros Ht He. unfold candidates. destruct target as [t|]; [|reflexivity].
  cbn [with_SpellSummary ai].
  destruct (HasFlag_SILENCED _); [reflexivity|].
  apply omap_pointwise. intros i.
  unfold survivor, lacks_target_class, lacks_effect_class.
  rewrite Ht, He. reflexivity.
Qed.

(** X9.  A call that asks for no class does not read [SpellSummary]: whatever
    that array holds, built or not, [SelectSpell] returns, and it returns
    the candidate [urand] draws among those that pass the other checks. *)
Theorem SelectSpell_without_classes (w : World) (target : option Unit)
    (args : SelectArgs) (arr : list TSpellSummary) :
  urand_in_range ->
  selectTargets args = SELECT_TARGET_DONTCARE ->
  selectEffects args = SELECT_EFFECT_DONTCARE ->
  let cands := candidates target args w in
  let w' := with_SpellSummary arr w in
  SelectSpell target args w' =
    Some (cands !! Z.to_nat (urand 0 (Z.of_nat (length cands) - 1)), w').
Proof.
  clear GetDistance2d IsInRange GetUnit.
  intros Hurand Ht He cands w'. subst cands w'.
  rewrite SelectSpell_pick_reads
    by (try apply no_class_reads_defined; assumption).
  cbv zeta. rewrite candidates_no_class by assumption. reflexivity.
Qed.

(** *** More on the capability index *)

Lemma slot_damage sp s j :
  in_effect_class (summary_slot sp s j) SELECT_EFFECT_DAMAGE = true
  <-> in_effect_class s SELECT_EFFECT_DAMAGE = true \/ damages sp j.
Proof.
  clear GetDistance2d IsInRange IsWithinDistInMap GetUnit urand.
  unfold damages. slot_bits.
  destruct (in_effect_class s SELECT_EFFECT_DAMAGE);
    destruct (Effect sp j); cbn; intuition discriminate.
Qed.

Lemma slot_heal sp s j :
  in_effect_class (summary_slot sp s j) SELECT_EFFECT_HEALING = true
  <-> in_effect_class s SELECT_EFFECT_HEALING = true \/ heals sp j.
Proof.
  clear GetDistance2d IsInRange IsWithinDistInMap GetUnit urand.
  unfold heals. slot_bits.
  destruct (Z.eqb_spec (EffectApplyAuraName sp j) 8);
    destruct (in_effect_class s SELECT_EFFECT_HEALING);
    destruct (Effect sp j); cbn; intuition (discriminate || congruence).
Qed.

Lemma slot_aura sp s j :
  in_effect_class (summary_slot sp s j) SELECT_EFFECT_AURA = true
  <-> in_effect_class s SELECT_EFFECT_AURA = true \/ applies_aura sp j.
Proof.
  clear GetDistance2d IsInRange IsWithinDistInMap GetUnit urand.
  unfold applies_aura. slot_bits.
  destruct (in_effect_class s SELECT_EFFECT_AURA);
    destruct (Effect sp j); cbn; intuition discriminate.
Qed.

Lemma in_effect_class_zero e : in_effect_class zero_summary e = false.
Proof. unfold in_effect_class. cbn [zero_summary Effects]. apply has_bit_zero. Qed.

Lemma in_target_class_zero t : in_target_class zero_summary t = false.
Proof. unfold in_target_class. cbn [zero_summary Targets]. apply has_bit_zero. Qed.

Lemma some_slot (P : nat -> Prop) :
  (P 0%nat \/ P 1%nat \/ P 2%nat) <-> exists j, (j < 3)%nat /\ P j.
Proof.
  split.
  - intros [H|[H|H]]; eexists; (split; [|exact H]); lia.
  - intros (j & Hj & H). destruct j as [|[|[|j]]]; auto. lia.
Qed.

Lemma summary_entry_effect_classes sp :
  let s := summary_entry (Some sp) in
  (in_effect_class s SELECT_EFFECT_DAMAGE = true
   <-> exists j, (j < 3)%nat /\ damages sp j)
  /\ (in_effect_class s SELECT_EFFECT_HEALING = true
      <-> exists j, (j < 3)%nat /\ heals sp j)
  /\ (in_effect_class s SELECT_EFFECT_AURA = true
      <-> exists j, (j < 3)%nat /\ applies_aura sp j).
Proof.
  clear GetDistance2d IsInRange IsWithinDistInMap GetUnit urand.
  cbv zeta. cbn [summary_entry foldl]. rewrite <- !some_slot.
  rewrite !slot_damage, !slot_heal, !slot_aura, !in_effect_class_zero.
  intuition discriminate.
Qed.

(** X11.  The effect classes of a summary are exact.  In the cell of an id that
    resolves, the damage class is set exactly when one of the three effect
    slots is a damage effect, the healing class exactly when one is a
    healing effect or applies the aura of name 8, the aura class exactly
    when one applies an aura. *)
Theorem effect_classes_exact (uninit : TSpellSummary)
    (store : DBCStorage SpellEntry) (i : nat) (sp : SpellEntry)
    (s : TSpellSummary) :
  LookupEntry store (Z.of_nat i) = Some sp ->
  fill_summary uninit store !! i = Some s ->
  (in_effect_class s SELECT_EFFECT_DAMAGE = true
   <-> exists j, (j < 3)%nat /\ damages sp j)
  /\ (in_effect_class s SELECT_EFFECT_HEALING = true
      <-> exists j, (j < 3)%nat /\ heals sp j)
  /\ (in_effect_class s SELECT_EFFECT_AURA = true
      <-> exists j, (j < 3)%nat /\ applies_aura sp j).
Proof.
  clear GetDistance2d IsInRange IsWithinDistInMap GetUnit urand.
  intros Hsp. rewrite fill_summary_lookup. case_decide; [|discriminate].
  rewrite Hsp. intros [= <-]. apply summary_entry_effect_classes.
Qed.

Lemma slot_target_classes sp s j :
  let inv s :=
    in_target_class s SELECT_TARGET_ANY_ENEMY
      = in_target_class s SELECT_TARGET_SINGLE_ENEMY
        || in_target_class s SELECT_TARGET_AOE_ENEMY
    /\ in_target_class s SELECT_TARGET_ANY_FRIEND
      = in_target_class s SELECT_TARGET_SINGLE_FRIEND
        || in_target_class s SELECT_TARGET_AOE_FRIEND
    /\ (in_target_class s SELECT_TARGET_SELF = true ->
        in_target_class s SELECT_TARGET_SINGLE_FRIEND = true) in
  inv s -> inv (summary_slot sp s j).
Proof.
  clear GetDistance2d IsInRange IsWithinDistInMap GetUnit urand.
  cbv zeta. slot_bits. intros (-> & -> & Hself).
  destruct (in_target_class s SELECT_TARGET_SELF);
    destruct (in_target_class s SELECT_TARGET_SINGLE_ENEMY);
    destruct (in_target_class s SELECT_TARGET_AOE_ENEMY);
    destruct (in_target_class s SELECT_TARGET_SINGLE_FRIEND);
    destruct (in_target_class s SELECT_TARGET_AOE_FRIEND);
    destruct (EffectImplicitTargetA sp j); cbn;
    repeat split; try reflexivity; intros; try discriminate;
    try (apply Hself; reflexivity).
Qed.

(** X12.  The "any" target classes are the unions they are named for.  In every
    cell of the built array, any-enemy is set exactly when single-enemy or
    aoe-enemy is, any-friend exactly when single-friend or aoe-friend is,
    and self comes with single-friend. *)
Theorem target_classes_related (uninit : TSpellSummary)
    (store : DBCStorage SpellEntry) (i : nat) (s : TSpellSummary) :
  fill_summary uninit store !! i = Some s ->
  in_target_class s SELECT_TARGET_ANY_ENEMY
    = in_target_class s SELECT_TARGET_SINGLE_ENEMY
      || in_target_class s SELECT_TARGET_AOE_ENEMY
  /\ in_target_class s SELECT_TARGET_ANY_FRIEND
    = in_target_class s SELECT_TARGET_SINGLE_FRIEND
      || in_target_class s SELECT_TARGET_AOE_FRIEND
  /\ (in_target_class s SELECT_TARGET_SELF = true ->
      in_target_class s SELECT_TARGET_SINGLE_FRIEND = true).
Proof.
  clear GetDistance2d IsInRange IsWithinDistInMap GetUnit urand.
  rewrite fill_summary_lookup. case_decide; [|discriminate].
  intros [= <-].
  destruct (LookupEntry store (Z.of_nat i)) as [sp|]; cbn [summary_entry foldl].
  - do 3 apply slot_target_classes.
    rewrite !in_target_class_zero. repeat split. discriminate.
  - rewrite !in_target_class_zero. repeat split. discriminate.
Qed.

(** X14.  No cell keeps what [new] left in it: the array built does not depend
    on the initial contents of the allocation. *)
Theorem fill_summary_initialises (uninit uninit' : TSpellSummary)
    (store : DBCStorage SpellEntry) :
  fill_summary uninit store = fill_summary uninit' store.
Proof.
  clear GetDistance2d IsInRange IsWithinDistInMap GetUnit urand.
  apply list_eq. intros i. rewrite !fill_summary_lookup. reflexivity.
Qed.

Lemma or_bit_bounded flags k n :
  0 <= k < n -> n <= 8 -> 0 <= flags < 2 ^ n -> 0 <= or_bit flags k < 2 ^ n.
Proof.
  intros Hk Hn Hf. unfold or_bit, wrap8. rewrite Z.shiftl_1_l.
  assert (Hpos : 0 < 2 ^ k) by (apply Z.pow_pos_nonneg; lia).
  assert (Hnn : 0 <= Z.lor flags (2 ^ k)) by (apply Z.lor_nonneg; lia).
  assert (Hne : Z.lor flags (2 ^ k) <> 0).
  { intros H0. apply Z.lor_eq_0_iff in H0. lia. }
  assert (Hlt : Z.lor flags (2 ^ k) < 2 ^ n).
  { apply Z.log2_lt_pow2; [lia|].
    rewrite Z.log2_lor by lia. rewrite Z.log2_pow2 by lia.
    apply Z.max_lub_lt; [|lia].
    destruct (Z.eq_dec flags 0) as [->|Hf0]; [cbn; lia|].
    apply Z.log2_lt_pow2; lia. }
  assert (H8 : 2 ^ n <= 2 ^ 8) by (apply Z.pow_le_mono_r; lia).
  rewrite Z.mod_small by lia. lia.
Qed.

Lemma when_or_Targets_bounded cond t s :
  t <> SELECT_TARGET_DONTCARE ->
  flags_bounded s -> flags_bounded (when cond (or_Targets t) s).
Proof.
  intros Ht [HT HE]. destruct cond; [|split; assumption].
  split; [|exact HE]. cbn [when or_Targets Targets].
  apply or_bit_bounded; [|lia|exact HT]. destruct t; cbn; lia || congruence.
Qed.

Lemma when_or_Effects_bounded cond e s :
  e <> SELECT_EFFECT_DONTCARE ->
  flags_bounded s -> flags_bounded (when cond (or_Effects e) s).
Proof.
  intros He [HT HE]. destruct cond; [|split; assumption].
  split; [exact HT|]. cbn [when or_Effects Effects].
  apply or_bit_bounded; [|lia|exact HE]. destruct e; cbn; lia || congruence.
Qed.

Lemma summary_slot_bounded sp s j :
  flags_bounded s -> flags_bounded (summary_slot sp s j).
Proof.
  intros H. unfold summary_slot. cbv zeta.
  repeat first
    [ exact H
    | apply when_or_Targets_bounded; [discriminate|]
    | apply when_or_Effects_bounded; [discriminate|] ].
Qed.

(** X13.  Every cell of the built array uses the bits of the classes only:
    [Targets] is below 128 and [Effects] below 8, so no bit is lost to
    the [uint8] fields and a cell never answers for a class that does not
    exist. *)
Theorem summary_flags_bounded (uninit : TSpellSummary)
    (store : DBCStorage SpellEntry) (i : nat) (s : TSpellSummary) :
  fill_summary uninit store !! i = Some s ->
  0 <= Targets s < 128 /\ 0 <= Effects s < 8.
Proof.
  clear GetDistance2d IsInRange IsWithinDistInMap GetUnit urand.
  rewrite fill_summary_lookup. case_decide; [|discriminate].
  intros [= <-]. change 128 with (2 ^ 7). change 8 with (2 ^ 3).
  change (flags_bounded (summary_entry (LookupEntry store (Z.of_nat i)))).
  assert (Hz : flags_bounded zero_summary) by (unfold flags_bounded; cbn; lia).
  destruct (LookupEntry store (Z.of_nat i)) as [sp|]; cbn [summary_entry foldl].
  - do 3 apply summary_slot_bounded. exact Hz.
  - exact Hz.
Qed.

(** X15.  The index and the selector together.  Once [FillSpellSummary] has
    run, [SelectSpell] asked for an effect class returns only spells that
    have an effect slot of that class: a damage effect for
    SELECT_EFFECT_DAMAGE, a healing effect or the aura of name 8 for
    SELECT_EFFECT_HEALING, an applied aura for SELECT_EFFECT_AURA. *)
Theorem SelectSpell_effect_class (uninit : TSpellSummary) (w0 w w' : World)
    (target : option Unit) (args : SelectArgs) (sp : SpellEntry) :
  urand_in_range ->
  FillSpellSummary uninit w0 = Some (tt, w) ->
  SelectSpell target args w = Some (Some sp, w') ->
  (selectEffects args = SELECT_EFFECT_DAMAGE ->
   exists j, (j < 3)%nat /\ damages sp j)
  /\ (selectEffects args = SELECT_EFFECT_HEALING ->
      exists j, (j < 3)%nat /\ heals sp j)
  /\ (selectEffects args = SELECT_EFFECT_AURA ->
      exists j, (j < 3)%nat /\ applies_aura sp j).
Proof.
  clear GetDistance2d IsInRange GetUnit.
  intros Hurand Hfill Hrun.
  pose proof (FillSpellSummary_covers _ _ _ Hfill) as Hcov.
  destruct (SelectSpell_returns_survivor _ _ _ _ _ Hurand Hcov Hrun)
    as (t & i & _ & _ & Hsurv).
  apply survivor_passes in Hsurv as (Hlook & _ & He & _).
  rewrite FillSpellSummary_run in Hfill. injection Hfill as <-.
  cbn [with_SpellSummary SpellStore SpellSummary ai] in *.
  set (id := m_spells (m_creature (ai w0)) i) in *.
  pose proof (LookupEntry_Some _ _ _ Hlook) as Hid.
  assert (Hclass : selectEffects args <> SELECT_EFFECT_DONTCARE ->
            exists s, fill_summary uninit (SpellStore w0) !! Z.to_nat id = Some s
                      /\ in_effect_class s (selectEffects args) = true).
  { intros Hne. exact (has_effect_class _ _ _ He Hne). }
  assert (Hexact : forall s,
            fill_summary uninit (SpellStore w0) !! Z.to_nat id = Some s ->
            (in_effect_class s SELECT_EFFECT_DAMAGE = true
             <-> exists j, (j < 3)%nat /\ damages sp j)
            /\ (in_effect_class s SELECT_EFFECT_HEALING = true
                <-> exists j, (j < 3)%nat /\ heals sp j)
            /\ (in_effect_class s SELECT_EFFECT_AURA = true
                <-> exists j, (j < 3)%nat /\ applies_aura sp j)).
  { intros s. rewrite fill_summary_lookup. case_decide; [|discriminate].
    rewrite Z2Nat.id, Hlook by lia. intros [= <-].
    apply summary_entry_effect_classes. }
  repeat split; intros Hsel; rewrite Hsel in Hclass;
    destruct (Hclass ltac:(discriminate)) as (s & Hs & Hbit);
    destruct (Hexact s Hs) as (Hd & Hh & Ha); tauto.
Qed.

(** *** More on DoResetThreat *)

Lemma update_reference_guids unit pct l :
  getUnitGuid <$> update_reference unit (addThreatPercent pct) l
  = getUnitGuid <$> l.
Proof.
  induction l as [|ref l IH]; [reflexivity|].
  cbn [update_reference]. destruct (refers_to unit ref); [reflexivity|].
  cbn [fmap list_fmap] in *. f_equal. exact IH.
Qed.

Lemma reset_steps_guids guids l :
  getUnitGuid <$> foldl reset_step l guids = getUnitGuid <$> l.
Proof.
  revert l. induction guids as [|g guids IH]; intros l; [reflexivity|].
  cbn [foldl]. rewrite IH. unfold reset_step.
  destruct (GetUnit g); [|reflexivity].
  destruct (fnonzero _); [apply update_reference_guids|reflexivity].
Qed.

(** X16.  [DoResetThreat] always returns, and it never adds, removes or moves an
    entry, whatever the list and the map hold: the guids of the threat
    list are afterwards what they were, in the same order.  It writes the
    threat list and the log and nothing else, and what it logs is
    diagnostics only. *)
Theorem DoResetThreat_keeps_entries (w : World) :
  exists l' new,
    DoResetThreat w = Some (tt, with_calls (calls w ++ new) (with_threat l' w))
    /\ getUnitGuid <$> l' = getUnitGuid <$> getThreatList (m_creature (ai w))
    /\ length l' = length (getThreatList (m_creature (ai w)))
    /\ Forall (fun e => is_log e = true) new.
Proof.
  clear GetDistance2d IsInRange IsWithinDistInMap urand.
  unfold DoResetThreat. run.
  destruct (negb (CanHaveThreatList (m_creature (ai w)))
            || isThreatListEmpty (m_creature (ai w))).
  - eexists (getThreatList (m_creature (ai w))), [_].
    rewrite with_threat_same. split; [reflexivity|].
    split; [reflexivity|]. split; [reflexivity|].
    constructor; [reflexivity|constructor].
  - rewrite DoResetThreat_loop_run. eexists _, [].
    split; [rewrite app_nil_r; reflexivity|].
    assert (Hg := reset_steps_guids
                    (getUnitGuid <$> getThreatList (m_creature (ai w)))
                    (getThreatList (m_creature (ai w)))).
    split; [exact Hg|]. split; [|constructor].
    apply (f_equal length) in Hg. rewrite !length_fmap in Hg. exact Hg.
Qed.

Lemma DoResetThreat_run (w : World) :
  let l := getThreatList (m_creature (ai w)) in
  CanHaveThreatList (m_creature (ai w)) = true ->
  l <> [] ->
  GetUnit_by_guid ->
  NoDup (getUnitGuid <$> l) ->
  DoResetThreat w = Some (tt, with_threat (reset_reference <$> l) w).
Proof.
  clear GetDistance2d IsInRange IsWithinDistInMap urand.
  intros l Hcan Hne Hguid Hnd. subst l. unfold DoResetThreat. run.
  rewrite Hcan. unfold isThreatListEmpty.
  destruct (getThreatList (m_creature (ai w))) as [|r0 l0] eqn:El;
    [congruence|].
  cbn [negb orb]. rewrite DoResetThreat_loop_run, El.
  rewrite reset_all by assumption. reflexivity.
Qed.

Lemma reset_reference_idem ref :
  reset_reference (reset_reference ref) = reset_reference ref.
Proof.
  assert (H : reset_reference ref
              = match GetUnit (getUnitGuid ref) with
                | Some _ => if fnonzero (refThreat ref)
                            then addThreatPercent (-100) ref else ref
                | None => ref
                end) by reflexivity.
  destruct (GetUnit (getUnitGuid ref)) as [u|] eqn:Eu;
    [destruct (fnonzero (refThreat ref)) eqn:Enz|]; rewrite H;
    unfold reset_reference.
  - cbn [addThreatPercent getUnitGuid]. rewrite Eu.
    change (refThreat {| getUnitGuid := getUnitGuid ref;
                         refThreat := Qred (refThreat ref
                                            + refThreat ref * (-100 # 100)) |})
      with (refThreat (addThreatPercent (-100) ref)).
    rewrite threat_reduced_by_100. reflexivity.
  - rewrite Eu, Enz. reflexivity.
  - rewrite Eu. reflexivity.
Qed.

(** X17.  Resetting twice is resetting once: after a reset of a list with one
    entry per unit, a second [DoResetThreat] returns and changes nothing. *)
Theorem DoResetThreat_idempotent (w w' : World) :
  let l := getThreatList (m_creature (ai w)) in
  CanHaveThreatList (m_creature (ai w)) = true ->
  l <> [] ->
  GetUnit_by_guid ->
  NoDup (getUnitGuid <$> l) ->
  DoResetThreat w = Some (tt, w') ->
  DoResetThreat w' = Some (tt, w').
Proof.
  clear GetDistance2d IsInRange IsWithinDistInMap urand.
  intros l Hcan Hne Hguid Hnd. subst l.
  rewrite DoResetThreat_run by assumption. intros [= <-].
  rewrite DoResetThreat_run.
  - cbn [with_threat with_creature with_ai ai m_creature getThreatList
         with_threatList].
    rewrite <- list_fmap_compose.
    rewrite (list_fmap_ext (reset_reference ∘ reset_reference) reset_reference)
      by (intros; apply reset_reference_idem).
    reflexivity.
  - exact Hcan.
  - cbn [with_threat with_creature with_ai ai m_creature getThreatList
         with_threatList].
    destruct (getThreatList (m_creature (ai w))); [congruence|discriminate].
  - exact Hguid.
  - cbn [with_threat with_creature with_ai ai m_creature getThreatList
         with_threatList].
    rewrite <- list_fmap_compose.
    rewrite (list_fmap_ext (getUnitGuid ∘ reset_reference) getUnitGuid)
      by (intros; apply reset_reference_guid).
    exact Hnd.
Qed.

Lemma find_threat_reset (l : list HostileReference) guid unit :
  GetUnit guid = Some unit ->
  GetObjectGuid unit = guid ->
  (find_threat (reset_reference <$> l) unit == 0)%Q.
Proof.
  intros Hu Hg. unfold find_threat.
  induction l as [|ref l IH]; [reflexivity|].
  cbn [fmap list_fmap List.find].
  unfold refers_to at 1. rewrite reset_reference_guid, Hg.
  destruct (Z.eqb_spec (getUnitGuid ref) guid) as [E|_]; [|exact IH].
  unfold reset_reference. rewrite E, Hu. unfold fnonzero.
  destruct (Qeq_bool (refThreat ref) 0) eqn:Ez; cbn [negb].
  - apply Qeq_bool_iff, Ez.
  - rewrite threat_reduced_by_100. reflexivity.
Qed.

(** X18.  After a reset of a list with one entry per unit, [getThreat] is zero
    for every unit on the map. *)
Theorem DoResetThreat_getThreat (w w' : World) (guid : Z) (unit : Unit) :
  let l := getThreatList (m_creature (ai w)) in
  CanHaveThreatList (m_creature (ai w)) = true ->
  l <> [] ->
  GetUnit_by_guid ->
  NoDup (getUnitGuid <$> l) ->
  DoResetThreat w = Some (tt, w') ->
  GetUnit guid = Some unit ->
  (getThreat (m_creature (ai w')) unit == 0)%Q.
Proof.
  clear GetDistance2d IsInRange IsWithinDistInMap urand.
  intros l Hcan Hne Hguid Hnd. subst l.
  rewrite DoResetThreat_run by assumption. intros [= <-] Hu.
  unfold getThreat.
  cbn [with_threat with_creature with_ai ai m_creature getThreatList
       with_threatList].
  exact (find_threat_reset _ guid unit Hu (Hguid _ _ Hu)).
Qed.

(** *** The helpers that only call the engine *)

(** X19.  [DoTeleportPlayer] teleports players only.  A teleport it asks for is
    of the unit given, which is a player, to the unit's own map and to the
    coordinates given; a unit that is not a player gets one diagnostic and
    no teleport; a null unit gets nothing. *)
Theorem DoTeleportPlayer_players_only (TYPEID_PLAYER : Z)
    (GetTypeId GetMapId : Unit -> Z) (unit : option Unit) (x y z ori : float) :
  let made := DoTeleportPlayer TYPEID_PLAYER GetTypeId GetMapId unit x y z ori in
  (forall u m x' y' z' o',
     In (TeleportTo u m x' y' z' o') made ->
     unit = Some u /\ GetTypeId u = TYPEID_PLAYER /\ m = GetMapId u
     /\ (x', y', z', o') = (x, y, z, ori))
  /\ (forall u, unit = Some u -> GetTypeId u <> TYPEID_PLAYER ->
      made = [engine_error_log msg_teleport_non_player])
  /\ (forall u, unit = Some u -> GetTypeId u = TYPEID_PLAYER ->
      made = [TeleportTo u (GetMapId u) x y z ori])
  /\ (unit = None -> made = []).
Proof.
  clear GetDistance2d IsInRange IsWithinDistInMap GetUnit urand.
  cbv zeta. unfold DoTeleportPlayer. destruct unit as [u0|].
  - destruct (Z.eqb_spec (GetTypeId u0) TYPEID_PLAYER) as [E|E]; cbn [negb].
    + split.
      { intros u m x' y' z' o' Hin. destruct Hin as [Hin|Hin]; [|destruct Hin].
        inversion Hin; subst. auto. }
      split; [intros u [= <-] Hne; congruence|].
      split; [intros u [= <-] _; reflexivity|].
      intros H; discriminate.
    + split.
      { intros u m x' y' z' o' Hin. destruct Hin as [Hin|Hin]; [|destruct Hin].
        discriminate. }
      split; [intros u [= <-] _; reflexivity|].
      split; [intros u [= <-] He; congruence|].
      intros H; discriminate.
  - split; [intros u m x' y' z' o' Hin; destruct Hin|].
    split; [intros u H; discriminate|].
    split; [intros u H; discriminate|].
    reflexivity.
Qed.

(** X20.  [DoPlaySoundToSet] plays no sound that the sound store does not have.
    With a source, a sound id that resolves is played, once, and one that
    does not gets one diagnostic instead; without a source nothing is
    done, not even the lookup. *)
Theorem DoPlaySoundToSet_known_sounds_only {Sound Source}
    (sounds : DBCStorage Sound) (source : option Source) (soundId : Z) :
  let made := DoPlaySoundToSet sounds source soundId in
  (forall id, In (PlayDirectSound id) made ->
     id = soundId /\ is_Some source /\ is_Some (LookupEntry sounds soundId)
     /\ 0 <= soundId < GetMaxEntry sounds)
  /\ (is_Some source -> LookupEntry sounds soundId = None ->
      made = [engine_error_log msg_invalid_sound])
  /\ (is_Some source -> is_Some (LookupEntry sounds soundId) ->
      made = [PlayDirectSound soundId])
  /\ (source = None -> made = []).
Proof.
  clear GetDistance2d IsInRange IsWithinDistInMap GetUnit urand.
  cbv zeta. unfold DoPlaySoundToSet. destruct source as [src|].
  - destruct (LookupEntry sounds soundId) as [snd|] eqn:E; cbn [is_null].
    + split.
      { intros id Hin. destruct Hin as [Hin|Hin]; [|destruct Hin].
        injection Hin as <-. split; [reflexivity|]. split; [eauto|].
        split; [eauto|]. exact (LookupEntry_Some _ _ _ E). }
      split; [intros _ H; discriminate|].
      split; [intros _ _; reflexivity|].
      intros H; discriminate.
    + split.
      { intros id Hin. destruct Hin as [Hin|Hin]; [|destruct Hin].
        discriminate. }
      split; [intros _ _; reflexivity|].
      split; [intros _ [snd H]; discriminate|].
      intros H; discriminate.
  - split; [intros id Hin; destruct Hin|].
    split; [intros [src H]; discriminate|].
    split; [intros [src H]; discriminate|].
    reflexivity.
Qed.

(** X21.  [SetEquipmentSlots] hands [SetVirtualItem] no negative item.  With
    [loadDefault] it loads the template's equipment and sets no slot.
    Without, slot 0, 1, 2 is set to [mainHand], [offHand], [ranged] when
    that is not negative and left alone when it is, and no equipment is
    loaded. *)
Theorem SetEquipmentSlots_spec (EquipmentTemplateId : Z) (loadDefault : bool)
    (mainHand offHand ranged : Z) :
  let made := SetEquipmentSlots EquipmentTemplateId loadDefault
                mainHand offHand ranged in
  let asked slot := match slot with
                    | VIRTUAL_ITEM_SLOT_0 => mainHand
                    | VIRTUAL_ITEM_SLOT_1 => offHand
                    | VIRTUAL_ITEM_SLOT_2 => ranged
                    end in
  (forall slot item,
     In (SetVirtualItem slot item) made
     <-> loadDefault = false /\ item = asked slot /\ 0 <= item)
  /\ (forall id, In (LoadEquipment id) made
      <-> loadDefault = true /\ id = EquipmentTemplateId)
  /\ (length made <= 3)%nat.
Proof.
  clear GetDistance2d IsInRange IsWithinDistInMap GetUnit urand.
  cbv zeta. unfold SetEquipmentSlots. destruct loadDefault.
  - split; [|split; [|cbn; lia]].
    + intros slot item. split; [intros [H|[]]; discriminate|].
      intros (H & _); discriminate.
    + intros id. split; [intros [[= <-]|[]]; auto|].
      intros (_ & ->). left. reflexivity.
  - split; [|split].
    + intros slot item. rewrite !in_app_iff.
      destruct (Z.leb_spec 0 mainHand) as [Hm|Hm];
        destruct (Z.leb_spec 0 offHand) as [Ho|Ho];
        destruct (Z.leb_spec 0 ranged) as [Hr|Hr]; cbn [In].
      all: split;
        [ intros Hin;
          repeat match goal with
                 | H : _ \/ _ |- _ => destruct H
                 | H : False |- _ => destruct H
                 | H : SetVirtualItem _ _ = SetVirtualItem _ _ |- _ =>
                     injection H as <- <-
                 end; auto
        | intros (_ & -> & Hpos); destruct slot;
          first [exfalso; lia | intuition auto] ].
    + intros id. rewrite !in_app_iff. split; [|intros (H & _); discriminate].
      destruct (0 <=? mainHand), (0 <=? offHand), (0 <=? ranged); cbn [In];
        intros Hin;
        repeat match goal with
               | H : _ \/ _ |- _ => destruct H
               | H : False |- _ => destruct H
               end; discriminate.
    + rewrite !length_app.
      destruct (0 <=? mainHand), (0 <=? offHand), (0 <=? ranged); cbn; lia.
Qed.

(** X22.  [Scripted_NoMovementAI::AttackStart] never starts a chase.  It calls
    nothing unless there is a target and the attack on it starts; then it
    adds threat, sets both sides in combat, and stops the creature where
    it stands. *)
Theorem NoMovementAI_AttackStart_spec (Attack : Unit -> bool)
    (who : option Unit) :
  let made := NoMovementAI_AttackStart Attack who in
  Forall (fun e => is_MoveChase e = false) made
  /\ (made <> [] <-> exists target, who = Some target /\ Attack target = true)
  /\ (forall target, who = Some target -> Attack target = true ->
      made = [AddThreat target; SetInCombatWith target;
              SetInCombatWith_creature target; MoveIdle; StopMoving]).
Proof.
  clear GetDistance2d IsInRange IsWithinDistInMap GetUnit urand.
  cbv zeta. unfold NoMovementAI_AttackStart, DoStartNoMovement.
  destruct who as [t|].
  - destruct (Attack t) eqn:E.
    + split; [repeat constructor|]. split.
      * split; [eauto|discriminate].
      * intros target [= <-] _. reflexivity.
    + split; [constructor|]. split.
      * split; [congruence|]. intros (target & [= <-] & H). congruence.
      * intros target [= <-] H. congruence.
  - split; [constructor|]. split.
    + split; [congruence|]. intros (target & H & _). discriminate.
    + intros target H. discriminate.
Qed.

(** *** SelectSpell and CanCast together *)

(** X10.  A spell that [SelectSpell] returns passes every check of [CanCast]
    but the last: the caster is not silenced and can pay, and the spell
    has a range entry, so [CanCast] of it, triggered or not, is what
    [IsInRange] says of the target and that entry. *)
Theorem SelectSpell_then_CanCast (w w' : World) (target : option Unit)
    (args : SelectArgs) (sp : SpellEntry) :
  urand_in_range ->
  summary_covers_store w ->
  SelectSpell target args w = Some (Some sp, w') ->
  exists t tempRange,
    target = Some t
    /\ LookupEntry (SpellRangeStore w) (rangeIndex sp) = Some tempRange
    /\ forall triggered,
         CanCast target (Some sp) triggered w
         = Some (IsInRange (m_creature (ai w)) t
                   (minRange tempRange) (maxRange tempRange), w).
Proof.
  clear GetDistance2d GetUnit.
  intros Hurand Hcov Hrun.
  destruct (SelectSpell_returns_survivor _ _ _ _ _ Hurand Hcov Hrun)
    as (t & i & -> & _ & Hsurv).
  assert (Hsil : HasFlag_SILENCED (m_creature (ai w)) = false).
  { unfold SelectSpell in Hrun. revert Hrun. run.
    destruct (HasFlag_SILENCED (m_creature (ai w))); [discriminate|reflexivity]. }
  apply survivor_passes in Hsurv as (_ & _ & _ & Hu).
  apply usable_power_range in Hu as (Hpow & r & Hlook & _).
  exists t, r. split; [reflexivity|]. split; [exact Hlook|].
  intros triggered. unfold CanCast. run. rewrite Hsil.
  destruct (Z.ltb_spec (GetPower (m_creature (ai w)) (powerType sp)) (manaCost sp));
    [lia|].
  rewrite !andb_false_r. rewrite Hlook.
  destruct (IsInRange _ t _ _); reflexivity.
Qed.

End ScriptedAI.

(** ** The properties at work in the example world *)

Lemma example_urand_in_range : urand_in_range Example.urand.
Proof. intros lo hi H. unfold Example.urand. lia. Defined.

Lemma example_summary_covers_store c :
  summary_covers_store (Example.world c).
Proof.
  unfold summary_covers_store. cbn [Example.world SpellStore SpellSummary].
  rewrite fill_summary_length. apply Nat.le_refl.
Defined.

Lemma example_GetUnit_by_guid : GetUnit_by_guid Example.GetUnit.
Proof.
  intros guid unit. unfold Example.GetUnit.
  destruct (_ && _); [intros [= <-]; reflexivity|discriminate].
Defined.

(** C1 at work: the fireball costs 50 and the caster has 40. *)
Lemma CanCast_spec_witness :
  let w := Example.world Example.morogrim in
  CanCast Example.IsInRange (Some Example.player) (Some Example.fireball) false w
    = Some (false, w)
  /\ CanCast Example.IsInRange (Some Example.player) (Some Example.fireball) true w
    = Some (true, w).
Proof.
  intros w.
  apply (proj2 (CanCast_spec Example.IsInRange w (Some Example.player)
                  (Some Example.fireball) false)
           Example.player Example.fireball
           {| minRange := 0; maxRange := 30 |}); reflexivity.
Defined.

(** C2 at work: 1000 ms pass of the 2500. *)
Lemma evade_cooldown_gate_witness :
  let w := Example.world Example.morogrim in
  EnterEvadeIfOutOfCombatArea Example.GetDistance2d 1000 w
    = Some (false, with_cooldown 1500 w).
Proof.
  intros w.
  apply (proj1 (evade_cooldown_gate Example.GetDistance2d w 1000
                  ltac:(unfold is_uint32; lia)
                  ltac:(unfold is_uint32; cbn; lia))).
  cbn. lia.
Defined.

(** C2 as first stated fails at the boundary and under the guard.  With
    [delta = cooldown = 2500] the call does not reset the cooldown and does
    not evaluate the geometric test; with [delta > cooldown] on an evading
    actor the cooldown is reset and the test is not evaluated. *)
Lemma evade_cooldown_gate_counterexample :
  let w := Example.world Example.morogrim in
  let w_evading := Example.world (Example.evading Example.morogrim) in
  (2500 >= m_uiEvadeCheckCooldown (ai w)
   /\ ~ exists b w',
        EnterEvadeIfOutOfCombatArea Example.GetDistance2d 2500 w = Some (b, w')
        /\ m_uiEvadeCheckCooldown (ai w') = 2500
        /\ count is_switch (calls w') = S (count is_switch (calls w)))
  /\ (3000 >= m_uiEvadeCheckCooldown (ai w_evading)
      /\ ~ exists b w',
           EnterEvadeIfOutOfCombatArea Example.GetDistance2d 3000 w_evading
             = Some (b, w')
           /\ m_uiEvadeCheckCooldown (ai w') = 2500
           /\ count is_switch (calls w') = S (count is_switch (calls w_evading))).
Proof.
  intros w w_evading. split; (split; [cbn; lia|]).
  - intros (b & w' & Hrun & Hcd & _).
    vm_compute in Hrun. injection Hrun as _ <-. discriminate Hcd.
  - intros (b & w' & Hrun & _ & Hcount).
    vm_compute in Hrun. injection Hrun as _ <-. discriminate Hcount.
Qed.

(** C3 at work, and where the check departs from the claim: Morogrim at
    [x = 500], outside the band of his room, and [y = 250].  The check
    returns false and [EnterEvadeMode] is not called. *)
Lemma evade_morogrim_witness :
  let w := Example.world Example.morogrim in
  EnterEvadeIfOutOfCombatArea Example.GetDistance2d 3000 w
    = Some (false,
            with_calls [CombatAreaSwitch NPC_MOROGRIM_TIDEWALKER]
              (with_cooldown 2500 w)).
Proof.
  intros w.
  refine (proj1 (proj2 (evade_morogrim Example.GetDistance2d w 3000
                          eq_refl _ eq_refl _)) _ _).
  - cbn. lia.
  - exists Example.player. reflexivity.
  - unfold Qlt. cbn. lia.
  - unfold Qlt. cbn. lia.
Defined.

(** C10 at work: an evading actor, 3000 ms after the last check. *)
Lemma evade_reset_before_guard_witness :
  let w := Example.world (Example.evading Example.morogrim) in
  EnterEvadeIfOutOfCombatArea Example.GetDistance2d 3000 w
    = Some (false, with_cooldown 2500 w).
Proof.
  intros w.
  refine (proj1 (evade_reset_before_guard Example.GetDistance2d w 3000 _ _)).
  - cbn. lia.
  - left. reflexivity.
Defined.

(** C8 at work: an entry without a case. *)
Lemma evade_no_definition_witness :
  let w := Example.world Example.boar in
  EnterEvadeIfOutOfCombatArea Example.GetDistance2d 3000 w
    = Some (false,
            with_calls [CombatAreaSwitch 3100;
                        script_error_log msg_no_definition 3100]
              (with_cooldown 2500 w)).
Proof.
  intros w.
  refine (proj1 (evade_no_definition Example.GetDistance2d w 3000 _ eq_refl _ _)).
  - cbn. lia.
  - exists Example.player. reflexivity.
  - unfold evade_entries. cbn. intuition discriminate.
Defined.

(** C4 at work: with 100 power both spells are candidates; asked for a
    healing spell, [SelectSpell] returns the periodic heal. *)
Lemma SelectSpell_sound_witness :
  let w := Example.world (Example.npc 1 0 0 100) in
  SelectSpell Example.IsWithinDistInMap Example.urand None Example.healing_only w
    = Some (None, w)
  /\ exists r,
       SelectSpell Example.IsWithinDistInMap Example.urand
         (Some Example.player) Example.healing_only w = Some (r, w)
       /\ forall sp, r = Some sp -> manaCost sp <= 100.
Proof.
  intros w.
  pose proof (SelectSpell_sound Example.IsWithinDistInMap Example.urand w None
                Example.healing_only) as [Hnone _].
  pose proof (SelectSpell_sound Example.IsWithinDistInMap Example.urand w
                (Some Example.player) Example.healing_only) as [_ Hsome].
  split; [apply Hnone; left; reflexivity|].
  destruct (Hsome example_urand_in_range (example_summary_covers_store _))
    as (r & Hr & Hprops).
  exists r. split; [exact Hr|].
  intros sp Hsp. destruct (Hprops sp Hsp) as (t & i & _ & _ & _ & Hpow & _).
  exact Hpow.
Defined.

(** C5 at work: with 40 power the periodic heal is the one candidate. *)
Lemma SelectSpell_picks_candidate_witness :
  let w := Example.world Example.morogrim in
  candidates Example.IsWithinDistInMap (Some Example.player) Example.no_filter w
    = [Example.renew]
  /\ SelectSpell Example.IsWithinDistInMap Example.urand
       (Some Example.player) Example.no_filter w
     = Some (Some Example.renew, w).
Proof.
  intros w. split; [reflexivity|].
  destruct (SelectSpell_picks_candidate Example.IsWithinDistInMap Example.urand
              w (Some Example.player) Example.no_filter
              example_urand_in_range (example_summary_covers_store _))
    as (r & Hr & _ & Hone & _).
  rewrite Hr, (Hone Example.renew eq_refl). reflexivity.
Defined.

(** C6 at work: id 3 is below [GetMaxEntry] and absent. *)
Lemma summary_of_absent_spell_witness :
  exists w',
    FillSpellSummary zero_summary (Example.world Example.boar) = Some (tt, w')
    /\ array_read (SpellSummary w') 3 w' = Some (zero_summary, w').
Proof.
  destruct (summary_of_absent_spell zero_summary (Example.world Example.boar) 3)
    as (w' & Hrun & _ & Hin & _).
  exists w'. split; [exact Hrun|]. apply Hin; [|reflexivity].
  unfold GetMaxEntry. cbn. lia.
Defined.

(** C6 as first stated fails for an id outside [[0, GetMaxEntry())]: the
    array built for the example has four cells and id 4 has none, so the
    read does not give zero flags. *)
Lemma summary_of_absent_spell_counterexample :
  let w := Example.world Example.boar in
  GetMaxEntry (SpellStore w) = 4
  /\ LookupEntry (SpellStore w) 4 = None
  /\ ~ exists w',
        FillSpellSummary zero_summary w = Some (tt, w')
        /\ array_read (SpellSummary w') 4 w' = Some (zero_summary, w').
Proof.
  intros w. split; [reflexivity|]. split; [reflexivity|].
  intros (w' & Hrun & Hread).
  rewrite FillSpellSummary_run in Hrun. injection Hrun as <-.
  vm_compute in Hread. discriminate Hread.
Qed.

(** C7 at work: the cell of the periodic heal. *)
Lemma summary_class_invariants_witness :
  let s := {| Targets := 80; Effects := 6 |} in
  exists w',
    FillSpellSummary zero_summary (Example.world Example.boar) = Some (tt, w')
    /\ SpellSummary w' !! 2%nat = Some s
    /\ in_effect_class s SELECT_EFFECT_AURA = true
    /\ in_effect_class s SELECT_EFFECT_HEALING = true.
Proof.
  intros s.
  destruct (summary_class_invariants zero_summary (Example.world Example.boar))
    as (w' & Hrun & Hcells).
  exists w'. split; [exact Hrun|].
  rewrite FillSpellSummary_run in Hrun. injection Hrun as <-.
  split; [reflexivity|].
  refine (proj2 (Hcells 2%nat s eq_refl) Example.renew 0%nat eq_refl _
            eq_refl eq_refl).
  lia.
Defined.

Lemma example_threat_guids_NoDup :
  NoDup (getUnitGuid <$> getThreatList Example.morogrim).
Proof. apply (bool_decide_unpack _). vm_compute. exact I. Defined.

(** C9 at work: the unit of guid 1 resolves and has threat 100; that of
    guid 2 has threat zero; guid 77 does not resolve. *)
Lemma DoResetThreat_spec_witness :
  let w := Example.world Example.morogrim in
  exists l',
    DoResetThreat Example.GetUnit w = Some (tt, with_threat l' w)
    /\ length l' = 3%nat
    /\ (refThreat <$> l' !! 0%nat) = Some 0%Q
    /\ l' !! 2%nat = Some {| getUnitGuid := 77; refThreat := 50 |}.
Proof.
  intros w.
  destruct (proj2 (DoResetThreat_spec Example.GetUnit w) eq_refl
              ltac:(discriminate) example_GetUnit_by_guid
              example_threat_guids_NoDup)
    as (l' & Hrun & _ & Hlen & Hentries).
  exists l'. split; [exact Hrun|]. split; [exact Hlen|]. split.
  - destruct (Hentries 0%nat _ eq_refl) as (ref' & -> & _ & Hzero & _).
    cbn. f_equal. apply Hzero.
    + exists {| GetObjectGuid := 1 |}. reflexivity.
    + discriminate.
  - destruct (Hentries 2%nat _ eq_refl) as (ref' & -> & _ & _ & Hsame).
    f_equal. apply Hsame. left. reflexivity.
Defined.

(** ** The further properties at work in the example world *)

(** The throttle at work: three updates of a second each on a new AI make
    at most one test. *)
Lemma evade_checks_throttled_witness :
  exists bs w',
    evade_checks Example.GetDistance2d Example2.three_seconds
      (Example.world Example.morogrim) = Some (bs, w')
    /\ 2500 * (tests (calls w') - 0) <= 3000.
Proof.
  destruct (evade_checks_throttled Example.GetDistance2d Example2.three_seconds
              (Example.world Example.morogrim))
    as (bs & w' & Hrun & _ & _ & _ & Hnew).
  - repeat constructor; cbn; unfold is_uint32; lia.
  - cbn. lia.
  - exists bs, w'. split; [exact Hrun|]. exact (Hnew eq_refl).
Defined.

(** Sepethrea at work: at [x = 300] she stays, at [x = 200] she evades. *)
Lemma evade_sepethrea_witness :
  (exists w',
     EnterEvadeIfOutOfCombatArea Example.GetDistance2d 3000
       (Example.world (Example2.sepethrea 300)) = Some (false, w'))
  /\ (exists w',
        EnterEvadeIfOutOfCombatArea Example.GetDistance2d 3000
          (Example.world (Example2.sepethrea 200)) = Some (true, w')).
Proof.
  split.
  - eexists.
    refine (proj1 (evade_sepethrea Example.GetDistance2d
                     (Example.world (Example2.sepethrea 300)) 3000
                     eq_refl _ eq_refl _) _).
    + cbn. lia.
    + exists Example.player. reflexivity.
    + unfold Qlt. cbn. lia.
  - eexists.
    refine (proj2 (evade_sepethrea Example.GetDistance2d
                     (Example.world (Example2.sepethrea 200)) 3000
                     eq_refl _ eq_refl _) _).
    + cbn. lia.
    + exists Example.player. reflexivity.
    + unfold Qle. cbn. lia.
Defined.

(** The bounds at work: fire excluded and the cost capped at 40, the
    periodic heal is returned, and it meets both. *)
Lemma SelectSpell_respects_filters_witness :
  let w := Example.world Example2.caster in
  SelectSpell Example.IsWithinDistInMap Example.urand (Some Example.player)
    Example2.cheap_not_fire w = Some (Some Example.renew, w)
  /\ Z.land (SchoolMask Example.renew) 4 = 0
  /\ manaCost Example.renew <= 40.
Proof.
  intros w. split; [reflexivity|].
  destruct (SelectSpell_respects_filters Example.IsWithinDistInMap Example.urand
              w w (Some Example.player) Example2.cheap_not_fire Example.renew
              example_urand_in_range (example_summary_covers_store _) eq_refl)
    as (Hs & _ & _ & Hmax & _).
  split; [apply Hs; cbn; lia|apply Hmax; cbn; lia].
Defined.

(** Reach at work: with both spells candidates, a draw of 0 returns the
    first. *)
Lemma SelectSpell_reaches_candidate_witness :
  let w := Example.world Example2.caster in
  SelectSpell Example.IsWithinDistInMap Example2.urand_low (Some Example.player)
    Example.no_filter w = Some (Some Example.fireball, w).
Proof.
  intros w.
  exact (SelectSpell_reaches_candidate Example.IsWithinDistInMap
           Example2.urand_low w (Some Example.player) Example.no_filter
           0%nat Example.fireball (example_summary_covers_store _)
           eq_refl eq_refl).
Defined.

(** No class, no read: the summary not built, [SelectSpell] returns the
    second of the two candidates, which [urand] draws. *)
Lemma SelectSpell_without_classes_witness :
  let w := with_SpellSummary [] (Example.world Example2.caster) in
  SelectSpell Example.IsWithinDistInMap Example.urand (Some Example.player)
    Example.no_filter w = Some (Some Example.renew, w).
Proof.
  intros w.
  exact (SelectSpell_without_classes Example.IsWithinDistInMap Example.urand
           (Example.world Example2.caster) (Some Example.player)
           Example.no_filter [] example_urand_in_range eq_refl eq_refl).
Defined.

(** The healing class at work: the cell of the periodic heal has it, so
    one of its slots heals. *)
Lemma effect_classes_exact_witness :
  exists j, (j < 3)%nat /\ heals Example.renew j.
Proof.
  destruct (effect_classes_exact zero_summary Example.spells 2 Example.renew
              {| Targets := 80; Effects := 6 |} eq_refl eq_refl)
    as (_ & Hheal & _).
  apply Hheal. reflexivity.
Defined.

(** The target classes at work: the cell of the fireball. *)
Lemma target_classes_related_witness :
  let s := {| Targets := 10; Effects := 1 |} in
  in_target_class s SELECT_TARGET_ANY_ENEMY
  = in_target_class s SELECT_TARGET_SINGLE_ENEMY
    || in_target_class s SELECT_TARGET_AOE_ENEMY.
Proof.
  intros s.
  exact (proj1 (target_classes_related zero_summary Example.spells 1 s eq_refl)).
Defined.

(** The bounds of the flags at work: the cell of the periodic heal. *)
Lemma summary_flags_bounded_witness :
  0 <= 80 < 128 /\ 0 <= 6 < 8.
Proof.
  exact (summary_flags_bounded zero_summary Example.spells 2
           {| Targets := 80; Effects := 6 |} eq_refl).
Defined.

(** Index and selector at work: the summary built, a call for a healing
    spell returns the periodic heal, one of whose slots heals. *)
Lemma SelectSpell_effect_class_witness :
  let w0 := with_SpellSummary [] (Example.world Example2.caster) in
  let w := Example.world Example2.caster in
  FillSpellSummary zero_summary w0 = Some (tt, w)
  /\ SelectSpell Example.IsWithinDistInMap Example.urand (Some Example.player)
       Example.healing_only w = Some (Some Example.renew, w)
  /\ exists j, (j < 3)%nat /\ heals Example.renew j.
Proof.
  intros w0 w. split; [reflexivity|]. split; [reflexivity|].
  exact (proj1 (proj2 (SelectSpell_effect_class Example.IsWithinDistInMap
                         Example.urand zero_summary w0 w w (Some Example.player)
                         Example.healing_only Example.renew
                         example_urand_in_range eq_refl eq_refl)) eq_refl).
Defined.

(** A second reset at work. *)
Lemma DoResetThreat_idempotent_witness :
  let w := Example.world Example.morogrim in
  let w' := with_threat Example2.threat_after_reset w in
  DoResetThreat Example.GetUnit w = Some (tt, w')
  /\ DoResetThreat Example.GetUnit w' = Some (tt, w').
Proof.
  intros w w'. split; [reflexivity|].
  exact (DoResetThreat_idempotent Example.GetUnit w w' eq_refl
           ltac:(discriminate) example_GetUnit_by_guid
           example_threat_guids_NoDup eq_refl).
Defined.

(** The threat after a reset at work: the unit of guid 1 had 100. *)
Lemma DoResetThreat_getThreat_witness :
  let w' := with_threat Example2.threat_after_reset
              (Example.world Example.morogrim) in
  (getThreat (m_creature (ai w')) {| GetObjectGuid := 1 |} == 0)%Q.
Proof.
  intros w'.
  exact (DoResetThreat_getThreat Example.GetUnit
           (Example.world Example.morogrim) w' 1 {| GetObjectGuid := 1 |}
           eq_refl ltac:(discriminate) example_GetUnit_by_guid
           example_threat_guids_NoDup eq_refl eq_refl).
Defined.

(** Selector and check at work: the periodic heal that [SelectSpell]
    returns may be cast, the target standing within its range. *)
Lemma SelectSpell_then_CanCast_witness :
  let w := Example.world Example.morogrim in
  CanCast Example.IsInRange (Some Example.player) (Some Example.renew) false w
  = Some (true, w).
Proof.
  intros w.
  destruct (SelectSpell_then_CanCast Example.IsInRange Example.IsWithinDistInMap
              Example.urand w w (Some Example.player) Example.no_filter
              Example.renew example_urand_in_range
              (example_summary_covers_store _) eq_refl)
    as (t & r & Ht & Hr & Hcast).
  injection Ht as <-. injection Hr as <-. exact (Hcast false).
Defined.
